(** * shenfun: the tensor-product-space orchestrator

    A shallow embedding of [shenfun/tensorproductspace.py]: the axis-order
    validation and Fourier collapsing of [TensorProductSpace.__init__], the
    stage/transfer chain it configures, the shape and point-evaluation queries,
    the composite spaces and the [BoundaryValues] splicer.

    Python exceptions are values of [res]; numeric payloads that the code only
    compares with zero are integers; the per-axis transforms, the process grid
    and the arrays they act on are taken as data of the model. *)

From Stdlib Require Import String List ZArith Lia Bool Permutation Sorted.
Import ListNotations.
Local Open Scope Z_scope.

Set Implicit Arguments.
Set Warnings "-register-all".

(** ** Exceptions *)

Inductive exn : Type :=
| AssertionError
| IndexError
| ValueError
| NotImplementedError
| UnboundLocalError.

Inductive res (X : Type) : Type :=
| Ok (x : X)
| Raise (e : exn).

Arguments Ok {X} x.
Arguments Raise {X} e.

Definition bind {X Y : Type} (c : res X) (k : X -> res Y) : res Y :=
  match c with
  | Ok x => k x
  | Raise e => Raise e
  end.

Notation "'let*' x ':=' c 'in' k" := (bind c (fun x => k))
  (at level 10, x pattern, c at level 100, k at level 200).

Definition assert (b : bool) : res unit :=
  if b then Ok tt else Raise AssertionError.

Definition is_ok {X : Type} (c : res X) : bool :=
  match c with Ok _ => true | Raise _ => false end.

(** Python indexing [l[i]] for a non-negative index. *)
Definition getitem {X : Type} (l : list X) (i : nat) : res X :=
  match nth_error l i with
  | Some x => Ok x
  | None => Raise IndexError
  end.

(** Python indexing [l[i]] for any integer index: negative counts from the end. *)
Definition getitemZ {X : Type} (l : list X) (i : Z) : res X :=
  let n := Z.of_nat (length l) in
  if (0 <=? i) && (i <? n) then getitem l (Z.to_nat i)
  else if (- n <=? i) && (i <? 0) then getitem l (Z.to_nat (i + n))
  else Raise IndexError.

(** [l[i] = v]: raises out of range. *)
Fixpoint setitem {X : Type} (l : list X) (i : nat) (v : X) : res (list X) :=
  match l, i with
  | [], _ => Raise IndexError
  | _ :: t, O => Ok (v :: t)
  | h :: t, S j => let* t' := setitem t j v in Ok (h :: t')
  end.

(** [for x in xs: acc = f(acc, x)] with exceptions. *)
Fixpoint foldM {A B : Type} (f : A -> B -> res A) (a : A) (xs : list B) : res A :=
  match xs with
  | [] => Ok a
  | x :: t => let* a' := f a x in foldM f a' t
  end.

Fixpoint mapM {A B : Type} (f : A -> res B) (xs : list A) : res (list B) :=
  match xs with
  | [] => Ok []
  | x :: t => let* y := f x in let* ys := mapM f t in Ok (y :: ys)
  end.

(** ** Axis order: [TensorProductSpace.__init__], lines 72-94 *)

Module Axes.

(** One item of the [axes] argument: an integer or a tuple/list of integers. *)
Inductive axitem : Type :=
| AxInt (a : Z)
| AxGroup (g : list Z).

(** The [axes] argument: [None], a scalar ([np.ndim(axes) == 0]) or a sequence. *)
Inductive axes_arg : Type :=
| AxesNone
| AxesScalar (a : Z)
| AxesSeq (l : list axitem).

(** [if a < 0: a += len(shape)] *)
Definition wrap (n a : Z) : Z := if a <? 0 then a + n else a.

Definition wrap_item (n : Z) (ax : axitem) : list Z :=
  match ax with
  | AxInt a => [wrap n a]
  | AxGroup g => map (wrap n) g
  end.

(** [sorted(...)] on integers, by insertion. *)
Fixpoint insert_sorted (a : Z) (l : list Z) : list Z :=
  match l with
  | [] => [a]
  | b :: t => if a <=? b then a :: b :: t else b :: insert_sorted a t
  end.

Fixpoint sorted (l : list Z) : list Z :=
  match l with
  | [] => []
  | a :: t => insert_sorted a (sorted t)
  end.

(** [set(l)], as the list of its distinct elements. *)
Definition pyset (l : list Z) : list Z := nodup Z.eq_dec l.

Definition list_eqb (l1 l2 : list Z) : bool :=
  if list_eq_dec Z.eq_dec l1 l2 then true else false.

(** [min(g)] and [max(g)] raise [ValueError] on an empty sequence. *)
Definition pymin (g : list Z) : res Z :=
  match g with
  | [] => Raise ValueError
  | a :: t => Ok (fold_left Z.min t a)
  end.

Definition pymax (g : list Z) : res Z :=
  match g with
  | [] => Raise ValueError
  | a :: t => Ok (fold_left Z.max t a)
  end.

(** The four assertions that close the body of the loop over [axes]. *)
Definition check_group (n : Z) (g : list Z) : res unit :=
  let* lo := pymin g in
  let* _ := assert (0 <=? lo) in
  let* hi := pymax g in
  let* _ := assert (hi <? n) in
  let* _ := assert ((0 <? Z.of_nat (length g)) && (Z.of_nat (length g) <=? n)) in
  assert (list_eqb (sorted g) (sorted (pyset g))).

Definition normalize_item (n : Z) (ax : axitem) : res (list Z) :=
  let g := wrap_item n ax in
  let* _ := check_group n g in
  Ok g.

(** Lines 72-94 for a space of [n] bases: the normalised groups, or the
    exception of the first group that fails. *)
Definition normalize_axes (n : Z) (axes : axes_arg) : res (list (list Z)) :=
  let items :=
    match axes with
    | AxesNone => map (fun i => AxInt (Z.of_nat i)) (seq 0 (Z.to_nat n))
    | AxesScalar a => [AxInt a]
    | AxesSeq l => l
    end in
  mapM (normalize_item n) items.

(** What the assertions establish of one group. *)
Definition group_valid (n : Z) (g : list Z) : Prop :=
  g <> [] /\ Forall (fun a => 0 <= a < n) g /\ NoDup g.

(** A valid permutation of the available axes: the groups together list
    every axis exactly once. *)
Definition is_axis_permutation (n : Z) (groups : list (list Z)) : Prop :=
  Permutation (concat groups) (map Z.of_nat (seq 0 (Z.to_nat n))).

End Axes.

(** ** The orchestrator: [TensorProductSpace] *)

Module TPS.

(** Element types: [dtype.char] in ['fdg'] or in ['FDG']. *)
Inductive dtype : Type := Real | Complex.

Definition dtype_eqb (a b : dtype) : bool :=
  match a, b with
  | Real, Real | Complex, Complex => true
  | _, _ => false
  end.

(** Which of the two Fourier classes tested with [isinstance] a basis is. *)
Inductive basis_class : Type := R2CBasis | C2CBasis | OtherBasis.

(** A 1D basis, as far as the orchestrator consults it.  The basis classes
    are not part of this module: what [plan] leaves in
    [forward.output_array] is recorded as [plan_dtype] and [plan_extent],
    and the rounding of an extent stretched by the floating-point
    [padding_factor] as [pad_extent]. *)
Record Basis : Type := {
  family : string;               (* base.family() *)
  cls : basis_class;
  N : Z;
  padded : bool;                 (* abs(base.padding_factor - 1.0) > 1e-6 *)
  pad_extent : Z -> Z;           (* int(np.floor(x*base.padding_factor)) *)
  base_shape : bool -> Z;        (* base.shape(forward_output) *)
  base_dim : Z;                  (* base.dim() *)
  plan_dtype : dtype -> dtype;   (* forward.output_array.dtype, from the input dtype *)
  plan_extent : Z -> Z;          (* forward.output_array.shape[axis], from the input extent *)
  has_nonhomogeneous_bcs : bool
}.

(** The process grid, as far as the orchestrator consults mpi4py-fft:
    [Subcomm(comm, dims)] fills the zeros of [dims], and a [Pencil] knows the
    local extents of the calling process. *)
Record Mpi : Type := {
  compute_dims : Z -> list Z -> list Z;
  repartition : list Z -> Z -> Z -> list Z;    (* grid of pencil.pencil(axis) *)
  subshape : list Z -> list Z -> Z -> list Z   (* grid sizes, global shape, local axis *)
}.

Inductive comm_arg : Type :=
| Comm (size : Z)
| Subcomm (sizes : list Z).

Record Pencil : Type := {
  pencil_subcomm : list Z;
  pencil_shape : list Z;
  pencil_axis : Z
}.

Record Stage : Type := {
  stage_axes : list Z;      (* the group handed to [plan] *)
  stage_base : Z;           (* axes[-1]: the basis that transforms the group *)
  stage_in : dtype;
  stage_out : dtype
}.

Record Transfer : Type := {
  transfer_from : Pencil;
  transfer_to : Pencil;
  transfer_dtype : dtype
}.

Record TensorProductSpace : Type := {
  bases : list Basis;
  axes : list (list Z);
  subcomm : list Z;
  xfftn : list Stage;
  transfer : list Transfer;
  pencil : Pencil * Pencil;
  shape : bool -> list Z        (* PFFT.shape: local extents *)
}.

Definition last_item {X : Type} (l : list X) : res X := getitemZ l (-1).

Definition setitemZ {X : Type} (l : list X) (i : Z) (v : X) : res (list X) :=
  let n := Z.of_nat (length l) in
  if (0 <=? i) && (i <? n) then setitem l (Z.to_nat i) v
  else if (- n <=? i) && (i <? 0) then setitem l (Z.to_nat (i + n)) v
  else Raise IndexError.

(** [global_shape], on the list of bases. *)
Definition bases_shape (bs : list Basis) (forward_output : bool) : list Z :=
  map (fun b => base_shape b forward_output) bs.

(** *** Collapsing Fourier axes, lines 136-151 *)

(** [F = lambda ax: bases[ax].family() == 'fourier' and subcomm[ax].Get_size() == 1] *)
Definition F (bs : list Basis) (sizes : list Z) (ax : Z) : res bool :=
  let* b := getitemZ bs ax in
  if String.eqb (family b) "fourier"
  then let* s := getitemZ sizes ax in Ok (s =? 1)
  else Ok false.

Definition collapse_step (bs : list Basis) (sizes : list Z)
  (st : list (list Z) * bool) (ax : list Z) : res (list (list Z) * bool) :=
  let '(groups, F0) := st in
  let* axis := last_item ax in
  let* Fa := F bs sizes axis in
  match groups with
  | g0 :: rest =>
      if F0 && Fa then Ok ((axis :: g0) :: rest, Fa)
      else Ok (ax :: groups, Fa)
  | [] => Raise IndexError
  end.

Definition collapse (bs : list Basis) (sizes : list Z) (axs : list (list Z))
  : res (list (list Z)) :=
  let* g := last_item axs in
  let* axis := last_item g in
  let* F0 := F bs sizes axis in
  let* st := foldM (collapse_step bs sizes) ([g], F0) (rev (removelast axs)) in
  Ok (fst st).

(** *** Configuring the transforms, lines 153-179 *)

(** Plan the stage of one group on data of type [dt] and global shape [shp];
    the stage, and the shape and dtype handed to the next group. *)
Definition plan_group (bs : list Basis) (shp : list Z) (group : list Z) (dt : dtype)
  : res (Stage * list Z * dtype) :=
  let* a := last_item group in
  let* b := getitemZ bs a in
  let* e := getitemZ shp a in
  let st := {| stage_axes := group; stage_base := a;
               stage_in := dt; stage_out := plan_dtype b dt |} in
  if (e =? plan_extent b e) && dtype_eqb dt (plan_dtype b dt)
  then Ok (st, shp, dt)
  else let* shp' := setitemZ shp a (plan_extent b e) in
       Ok (st, shp', plan_dtype b dt).

Record build : Type := {
  b_shape : list Z;
  b_dtype : dtype;
  b_pencilA : Pencil;
  b_xfftn : list Stage;
  b_transfer : list Transfer
}.

Definition configure_step (mpi : Mpi) (bs : list Basis) (s : build) (group : list Z)
  : res build :=
  let* a := last_item group in
  let pencilA := b_pencilA s in
  let pencilB :=
    {| pencil_subcomm := repartition mpi (pencil_subcomm pencilA) (pencil_axis pencilA) a;
       pencil_shape := pencil_shape pencilA; pencil_axis := a |} in
  let transAB := {| transfer_from := b_pencilA s; transfer_to := pencilB;
                    transfer_dtype := b_dtype s |} in
  let* r := plan_group bs (b_shape s) group (b_dtype s) in
  let '(st, shp', dt') := r in
  Ok {| b_shape := shp'; b_dtype := dt';
        b_pencilA := {| pencil_subcomm := pencil_subcomm pencilB;
                        pencil_shape := shp'; pencil_axis := a |};
        b_xfftn := b_xfftn s ++ [st];
        b_transfer := b_transfer s ++ [transAB] |}.

Definition configure (mpi : Mpi) (sizes : list Z) (bs : list Basis) (shp : list Z)
  (axs : list (list Z)) (dt : dtype) : res (Pencil * build) :=
  let* group := last_item axs in
  let* a := last_item group in
  let pencil0 := {| pencil_subcomm := sizes; pencil_shape := shp; pencil_axis := a |} in
  let* r := plan_group bs shp group dt in
  let '(st, shp', dt') := r in
  let s0 := {| b_shape := shp'; b_dtype := dt';
               b_pencilA := {| pencil_subcomm := sizes;
                               pencil_shape := shp'; pencil_axis := a |};
               b_xfftn := [st]; b_transfer := [] |} in
  let* s := foldM (configure_step mpi bs) s0 (rev (removelast axs)) in
  Ok (pencil0, s).

(** *** [configure_backwards], lines 206-280 *)

Definition first_item {X : Type} (l : list X) : res X := getitemZ l 0.

(** Plan the stage of one group from the spectral side: [sub] is the local
    shape of the pencil the stage works on, whose extent along the axis of
    the basis is stretched by the padding factor before [plan] is called;
    an [R2CBasis] is planned on real data.  The stage, and the global shape
    and dtype handed to the next group. *)
Definition plan_group_backwards (bs : list Basis) (shp sub : list Z) (group : list Z)
  (dt : dtype) : res (Stage * list Z * dtype) :=
  let* a := last_item group in
  let* b := getitemZ bs a in
  let* e := getitemZ sub a in
  let extent := match cls b with
                | R2CBasis => pad_extent b (N b)
                | _ => pad_extent b e
                end in
  let dt := match cls b with R2CBasis => Real | _ => dt end in
  let st := {| stage_axes := group; stage_base := a;
               stage_in := dt; stage_out := plan_dtype b dt |} in
  let* g := getitemZ shp a in
  if (g =? extent) && dtype_eqb dt (plan_dtype b dt)
  then Ok (st, shp, dt)
  else let* shp' := setitemZ shp a extent in
       Ok (st, shp', dt).

Definition configure_backwards_step (mpi : Mpi) (bs : list Basis) (s : build)
  (group : list Z) : res build :=
  let* a := last_item group in
  let pencilA := b_pencilA s in
  let pencilB :=
    {| pencil_subcomm := repartition mpi (pencil_subcomm pencilA) (pencil_axis pencilA) a;
       pencil_shape := pencil_shape pencilA; pencil_axis := a |} in
  let transBA := {| transfer_from := pencilA; transfer_to := pencilB;
                    transfer_dtype := b_dtype s |} in
  let sub := subshape mpi (pencil_subcomm pencilB) (pencil_shape pencilB) a in
  let* r := plan_group_backwards bs (b_shape s) sub group (b_dtype s) in
  let '(st, shp', dt') := r in
  Ok {| b_shape := shp'; b_dtype := dt';
        b_pencilA := {| pencil_subcomm := pencil_subcomm pencilB;
                        pencil_shape := shp'; pencil_axis := a |};
        b_xfftn := b_xfftn s ++ [st];
        b_transfer := b_transfer s ++ [transBA] |}.

(** The stages are planned from the first group of [axes] to the last,
    starting from the distribution of [pencil] in spectral space. *)
Definition configure_backwards (mpi : Mpi) (bs : list Basis) (axs : list (list Z))
  (dt : dtype) (pencil : Pencil) : res (Pencil * build) :=
  let shp := bases_shape bs true in
  let* group := first_item axs in
  let sub := subshape mpi (pencil_subcomm pencil) (pencil_shape pencil)
                      (pencil_axis pencil) in
  let* r := plan_group_backwards bs shp sub group dt in
  let '(st, shp', dt') := r in
  let* a0 := first_item group in
  let pencilA := {| pencil_subcomm := pencil_subcomm pencil;
                    pencil_shape := shp'; pencil_axis := a0 |} in
  let s0 := {| b_shape := shp'; b_dtype := dt'; b_pencilA := pencilA;
               b_xfftn := [st]; b_transfer := [] |} in
  let* s := foldM (configure_backwards_step mpi bs) s0 (tl axs) in
  Ok (pencilA, s).

(** *** [__init__], lines 55-199

    The constructor up to and including the configuration of the
    transforms.  Its last loop, lines 201-204, calls [set_tensor_bcs] on the
    boundary values of every basis that reports non-homogeneous conditions;
    that call is [Boundary.set_tensor_bcs] below. *)

Definition default_dtype (b : Basis) : dtype :=
  match cls b with C2CBasis => Complex | _ => Real end.

Definition check_dtype (b : Basis) (dt : dtype) : res unit :=
  match cls b with
  | C2CBasis => assert (dtype_eqb dt Complex)
  | R2CBasis => assert (dtype_eqb dt Real)
  | OtherBasis => Ok tt
  end.

Definition make_subcomm (mpi : Mpi) (comm : comm_arg) (n : nat) (axs : list (list Z))
  (slab : bool) : res (list Z) :=
  let* g := last_item axs in
  let* a := last_item g in
  match comm with
  | Subcomm sizes =>
      let* _ := assert (negb slab) in
      let* _ := assert (Nat.eqb (length sizes) n) in
      let* s := getitemZ sizes a in
      let* _ := assert (s =? 1) in
      Ok sizes
  | Comm size =>
      if slab then
        let* dims := setitemZ (repeat 1 n) ((a + 1) mod Z.of_nat n) size in
        Ok (compute_dims mpi size dims)
      else
        let* dims := foldM (fun d ax => setitemZ d ax 1) (repeat 0 n) g in
        Ok (compute_dims mpi size dims)
  end.

Definition init (mpi : Mpi) (comm : comm_arg) (bs : list Basis) (axs : Axes.axes_arg)
  (dt : option dtype) (slab collapse_fourier : bool)
  (backward_from_pencil : option Pencil) : res TensorProductSpace :=
  let shp := bases_shape bs false in
  let* _ := assert (negb (Nat.eqb (length shp) 0)) in
  let* lo := Axes.pymin shp in
  let* _ := assert (0 <? lo) in
  let* axs := Axes.normalize_axes (Z.of_nat (length shp)) axs in
  let* g := last_item axs in
  let* a := last_item g in
  let* blast := getitemZ bs a in
  let dt := match dt with Some d => d | None => default_dtype blast end in
  match backward_from_pencil with
  | None =>
      let* _ := check_dtype blast dt in
      let* sizes := make_subcomm mpi comm (length shp) axs slab in
      let collapse_fourier := if existsb padded bs then false else collapse_fourier in
      let* axs := (if collapse_fourier then collapse bs sizes axs else Ok axs) in
      let* r := configure mpi sizes bs shp axs dt in
      let '(pencil0, s) := r in
      Ok {| bases := bs; axes := axs; subcomm := sizes;
            xfftn := b_xfftn s; transfer := b_transfer s;
            pencil := (pencil0, b_pencilA s);
            shape := fun forward_output =>
              let p := if forward_output then b_pencilA s else pencil0 in
              subshape mpi (pencil_subcomm p) (pencil_shape p) (pencil_axis p) |}
  | Some from_pencil =>
      let* r := configure_backwards mpi bs axs dt from_pencil in
      let '(pencil0, s) := r in
      Ok {| bases := bs; axes := axs; subcomm := pencil_subcomm from_pencil;
            xfftn := b_xfftn s; transfer := b_transfer s;
            pencil := (pencil0, b_pencilA s);
            shape := fun forward_output =>
              let p := if forward_output then pencil0 else b_pencilA s in
              subshape mpi (pencil_subcomm p) (pencil_shape p) (pencil_axis p) |}
  end.

(** *** Queries *)

Definition prod (l : list Z) : Z := fold_left Z.mul l 1.

Definition global_shape (T : TensorProductSpace) (forward_output : bool) : list Z :=
  bases_shape (bases T) forward_output.

Definition size (T : TensorProductSpace) (forward_output : bool) : Z :=
  prod (shape T forward_output).

Definition dims (T : TensorProductSpace) : list Z := map base_dim (bases T).

Definition dim (T : TensorProductSpace) : Z := prod (dims T).

(** [get_nonperiodic_axes]: the axes whose family is not ['fourier'], in order. *)
Fixpoint nonperiodic_from (axis : nat) (bs : list Basis) : list nat :=
  match bs with
  | [] => []
  | b :: t =>
      if String.eqb (family b) "fourier" then nonperiodic_from (S axis) t
      else axis :: nonperiodic_from (S axis) t
  end.

Definition get_nonperiodic_axes (T : TensorProductSpace) : list nat :=
  nonperiodic_from 0 (bases T).

(** The three implementations [eval] can hand the points to. *)
Inductive strategy : Type := EvalLmCython | EvalCython | EvalPython.

(** The dispatch of [eval], lines 355-362. *)
Definition eval (T : TensorProductSpace) (method : Z) : strategy :=
  let method := if (1 <? length (get_nonperiodic_axes T))%nat then 2 else method in
  if method =? 0 then EvalLmCython
  else if method =? 1 then EvalCython
  else EvalPython.

(** *** Element types along a pipeline *)

(** The stages [l] follow one another on data that enters with type [dt]:
    each reads what the stage before it wrote, and writes what its own basis
    makes of that. *)
Fixpoint dtype_chain (bs : list Basis) (dt : dtype) (l : list Stage) : Prop :=
  match l with
  | [] => True
  | st :: t =>
      stage_in st = dt
      /\ (exists b, getitemZ bs (stage_base st) = Ok b /\ stage_out st = plan_dtype b dt)
      /\ dtype_chain bs (stage_out st) t
  end.

Definition last_dtype (dt : dtype) (l : list Stage) : dtype :=
  fold_left (fun _ st => stage_out st) l dt.

(** *** Stages and the transfers between them *)

(** Transfer [i] sits between stage [i] and stage [i+1]: it moves data of
    the type stage [i] wrote, from a pencil aligned with the axis of stage
    [i] to a pencil of the same global shape aligned with the axis of stage
    [i+1]. *)
Definition transfer_links (xf : list Stage) (tr : list Transfer) : Prop :=
  forall i t before after,
    nth_error tr i = Some t ->
    nth_error xf i = Some before ->
    nth_error xf (S i) = Some after ->
    transfer_dtype t = stage_out before
    /\ pencil_axis (transfer_from t) = stage_base before
    /\ pencil_axis (transfer_to t) = stage_base after
    /\ pencil_shape (transfer_from t) = pencil_shape (transfer_to t).

(** *** Compatibility and the conjugate half of a real transform *)

(** [compatible_base], lines 723-743: [zip] pairs the bases up to the
    shorter list; [hash_of] is the [__hash__] of the bases. *)
Fixpoint compatible_bases (hash_of : Basis -> Z) (bs0 bs1 : list Basis) : bool :=
  match bs0, bs1 with
  | b0 :: t0, b1 :: t1 =>
      if negb (hash_of b0 =? hash_of b1) then false
      else compatible_bases hash_of t0 t1
  | _, _ => true
  end.

Definition compatible_base (hash_of : Basis -> Z) (T S : TensorProductSpace) : bool :=
  compatible_bases hash_of (bases T) (bases S).

(** [M = base.N//2+1] and [last_conj_index] of lines 390-394 (and of the two
    cython front ends, lines 464-468 and 505-509). *)
Definition half_size (n : Z) : Z := n / 2 + 1.

Definition last_conj_index (n : Z) : Z :=
  if n mod 2 =? 0 then half_size n - 1 else half_size n.

(** Lines 395-402 of [_eval_python]: the bounds [(sl, st)] of the slice of
    the local coefficients, owned from [start] to [stop], that are added a
    second time as complex conjugates. *)
Definition conj_slice (n start stop : Z) : Z * Z :=
  let offset := start in
  let sl := offset in
  let st := stop in
  let sl := if sl =? 0 then 1 else sl in
  let st := Z.min (last_conj_index n) st - offset in
  let sl := sl - offset in
  (sl, st).

End TPS.

(** ** The transforms of an orchestrator, lines 181-196 *)

Module Transform.

Section Run.

Context {array : Type}.

(** What one basis, or one transfer, contributes to the pipelines. *)
Record ops : Type := {
  forward : array -> array;
  backward : array -> array;
  scalar_product : array -> array
}.

(** A [Transform] called on [x]: each stage is followed by the transfer
    that fills the input of the next one, and the last stage closes the
    pipeline (as lines 1241-1250 drive it by hand).  The lists are those of
    a constructed orchestrator: one stage more than transfers. *)
Fixpoint run (xfftn transfer : list (array -> array)) (x : array) : res array :=
  match xfftn, transfer with
  | [f], [] => Ok (f x)
  | f :: fs, t :: ts => run fs ts (t (f x))
  | _, _ => Raise IndexError
  end.

Definition run_forward (xfftn transfer : list ops) : array -> res array :=
  run (map forward xfftn) (map forward transfer).

Definition run_backward (xfftn transfer : list ops) : array -> res array :=
  run (map backward (rev xfftn)) (map backward (rev transfer)).

Definition run_scalar_product (xfftn transfer : list ops) : array -> res array :=
  run (map scalar_product xfftn) (map forward transfer).

End Run.

Arguments ops : clear implicits.

End Transform.

(** ** Composite spaces: [MixedTensorProductSpace] *)

Module Mixed.

(** A member of a composite space is an orchestrator or, when it has the
    attribute [spaces], again a composite space. *)
Inductive space : Type :=
| Leaf (T : TPS.TensorProductSpace)
| Composite (spaces : list space).

(** [_recursiveflatten(l, s)]: appends the leaves of [l] to the list [s]. *)
Fixpoint _recursiveflatten (l : space) (s : list TPS.TensorProductSpace)
  : list TPS.TensorProductSpace :=
  match l with
  | Composite spaces => fold_left (fun acc i => _recursiveflatten i acc) spaces s
  | Leaf T => s ++ [T]
  end.

Definition flatten (spaces : list space) : list TPS.TensorProductSpace :=
  _recursiveflatten (Composite spaces) [].

(** [MixedTensorProductSpace.dim]: [s = 0; for space in self.flatten(): s += space.dim()] *)
Definition dim (spaces : list space) : Z :=
  fold_left (fun s T => s + TPS.dim T) (flatten spaces) 0.

(** [MixedTensorProductSpace.dims] *)
Definition dims (spaces : list space) : list Z :=
  fold_left (fun s T => s ++ [TPS.dim T]) (flatten spaces) [].

Definition num_components (spaces : list space) : nat := length (flatten spaces).

(** [dim()] of any member, leaf or composite. *)
Definition space_dim (l : space) : Z :=
  match l with
  | Leaf T => TPS.dim T
  | Composite spaces => dim spaces
  end.

(** The leaf list as the specification words it: depth first, left to right. *)
Fixpoint leaves (l : space) : list TPS.TensorProductSpace :=
  match l with
  | Leaf T => [T]
  | Composite spaces => flat_map leaves spaces
  end.

Definition sum (l : list Z) : Z := fold_right Z.add 0 l.

(** *** Shapes and sizes, lines 840-885 *)

(** [shape(forward_output=True)]: one shape per leaf. *)
Definition shape_forward_output (spaces : list space) : list (list Z) :=
  fold_left (fun s T => s ++ [TPS.shape T true]) (flatten spaces) [].

(** [shape(forward_output=False)]: the shape of the first leaf behind the
    number of components. *)
Definition shape_physical (spaces : list space) : res (list Z) :=
  let* T0 := getitem (flatten spaces) 0 in
  Ok (Z.of_nat (num_components spaces) :: TPS.shape T0 false).

(** [size]: [np.sum([np.prod(s) for s in N])] or [np.prod(N)]. *)
Definition size (spaces : list space) (forward_output : bool) : res Z :=
  if forward_output
  then Ok (fold_left Z.add (map TPS.prod (shape_forward_output spaces)) 0)
  else let* N := shape_physical spaces in Ok (TPS.prod N).

Definition global_shape (spaces : list space) (forward_output : bool) : res (list Z) :=
  let* T0 := getitem (flatten spaces) 0 in
  Ok (Z.of_nat (num_components spaces) :: TPS.global_shape T0 forward_output).

(** The property [dimensions]: that of the first leaf. *)
Definition dimensions (spaces : list space) : res nat :=
  let* T0 := getitem (flatten spaces) 0 in
  Ok (length (TPS.bases T0)).

(** *** [VectorTransform], lines 994-1016 *)

(** The attribute [forward] of a member (and likewise [backward],
    [scalar_product], [backward_uniform]): the transform of an orchestrator,
    named by its owner, or the [VectorTransform] of a composite member with
    its list [_transforms]. *)
Inductive transform : Type :=
| OfSpace (T : TPS.TensorProductSpace)
| VectorTransform (_transforms : list TPS.TensorProductSpace).

(** [VectorTransform.__init__]. *)
Definition VectorTransform_init (transforms : list transform)
  : list TPS.TensorProductSpace :=
  fold_left (fun acc t =>
               match t with
               | VectorTransform ts => acc ++ ts
               | OfSpace T => acc ++ [T]
               end) transforms [].

(** [MixedTensorProductSpace.__init__]:
    [self.forward = VectorTransform([space.forward for space in spaces])]. *)
Fixpoint forward_of (l : space) : transform :=
  match l with
  | Leaf T => OfSpace T
  | Composite spaces => VectorTransform (VectorTransform_init (map forward_of spaces))
  end.

Section Call.

Context {row : Type}.

(** [VectorTransform.__call__] on an input and an output array that are
    two objects, as lists of their leading-axis rows; a transform takes the
    input row and the output row it may write into. *)
Fixpoint call_from (i : nat) (transforms : list (row -> row -> row))
  (input_array output_array : list row) : res (list row) :=
  match transforms with
  | [] => Ok output_array
  | t :: ts =>
      let* x := getitem input_array i in
      let* y := getitem output_array i in
      let* output_array' := setitem output_array i (t x y) in
      call_from (S i) ts input_array output_array'
  end.

Definition call (transforms : list (row -> row -> row))
  (input_array output_array : list row) : res (list row) :=
  call_from 0 transforms input_array output_array.

End Call.

(** *** [VectorTensorProductSpace], lines 940-992 *)

(** The argument of the constructor: a list of spaces (deprecated) or one space. *)
Inductive vector_arg : Type :=
| FromList (l : list space)
| FromSpace (s : space).

(** [space.dimensions] of an orchestrator or of a composite space. *)
Definition space_dimensions (s : space) : res nat :=
  match s with
  | Leaf T => Ok (length (TPS.bases T))
  | Composite spaces => dimensions spaces
  end.

(** [VectorTensorProductSpace.__init__]: the member list. *)
Definition vector_init (arg : vector_arg) : res (list space) :=
  match arg with
  | FromList l => Ok l
  | FromSpace s => let* d := space_dimensions s in Ok (repeat s d)
  end.

(** [VectorTensorProductSpace.num_components]. *)
Definition vector_num_components (spaces : list space) : res nat :=
  let* d := dimensions spaces in
  let* _ := assert (Nat.eqb (length spaces) d) in
  dimensions spaces.

(** [VectorTensorProductSpace.shape]. *)
Definition vector_shape (spaces : list space) (forward_output : bool) : res (list Z) :=
  let* T0 := getitem (flatten spaces) 0 in
  let* n := vector_num_components spaces in
  Ok (Z.of_nat n :: TPS.shape T0 forward_output).

End Mixed.

(** ** The boundary splicer: [BoundaryValues] *)

Module Boundary.

(** Symbolic boundary data: the fragment of sympy expressions the splicer
    looks into ([free_symbols], [subs]). *)
Inductive expr : Type :=
| ENum (z : Z)
| ESym (name : string)
| EAdd (a b : expr)
| EMul (a b : expr).

Fixpoint free_symbols (e : expr) : list string :=
  match e with
  | ENum _ => []
  | ESym s => [s]
  | EAdd a b | EMul a b => free_symbols a ++ free_symbols b
  end.

Fixpoint subs (name : string) (v : Z) (e : expr) : expr :=
  match e with
  | ENum z => ENum z
  | ESym s => if String.eqb s name then ENum v else ESym s
  | EAdd a b => EAdd (subs name v a) (subs name v b)
  | EMul a b => EMul (subs name v a) (subs name v b)
  end.


(** One slot of the boundary specification, by the [isinstance] tests it
    passes: a Python number ([Number] only), an [np.ndarray], a sympy object
    ([sp.Expr]; a sympy number such as [S.Zero], here [ENum], is a [Number]
    as well), or none of them. *)
Inductive bc_value : Type :=
| BcNumber (v : Z)
| BcArray (a : list Z)
| BcExpr (e : expr)
| BcOther.

Definition is_other (b : bc_value) : bool :=
  match b with BcOther => true | _ => false end.

Definition is_time_dependent (b : bc_value) : bool :=
  match b with
  | BcExpr e => existsb (String.eqb "t") (free_symbols e)
  | _ => false
  end.



(** What the pipeline executes, in order. *)
Inductive event : Type :=
| RunStage (i : nat)
| RunTransfer (i : nat).

Section Splicer.

Context {array slice : Type}.

(** A snapshot slot holds what was assigned to it: a raw slot of the
    specification ([update_bcs]), or a copy of a slice of a pipeline array. *)
Inductive snapshot : Type :=
| Raw (v : bc_value)
| Slice (s : slice).

(** The basis that bears the boundary condition. *)
Record Base : Type := {
  axis : Z;
  has_nonhomogeneous_bcs : bool      (* the property of the basis *)
}.

(** The orchestrator as the splicer sees it: its groups, the [__eq__] of the
    bases at two axes, the stages and transfers of [T.forward], the physical
    array [b] carrying the boundary values (lines 1170-1206, for the given
    slots and time) and the slice [b_hat[this_base.si[k]]]. *)
Record Orchestrator : Type := {
  T_axes : list (list Z);
  T_nbases : nat;
  base_eq : Z -> Z -> bool;
  forward_xfftn : list (array -> array);
  forward_transfer : list (array -> array);
  boundary_array : list bc_value -> Z -> array;
  boundary_slice : array -> Z -> slice
}.

(** The second argument of [set_tensor_bcs]: a [SpectralBase] or an orchestrator. *)
Inductive space : Type :=
| OneD
| Tensor (T : Orchestrator).

Record BoundaryValues : Type := {
  base : Base;
  tensorproductspace : option space;
  bc : list bc_value;
  bcs : list snapshot;
  bcs_final : list snapshot;
  bv_axis : Z;
  bc_time : Z;
  number_of_bases_after_this : option nat
}.

Definition zero : snapshot := Raw (BcNumber 0).

(** [has_nonhomogeneous_bcs], lines 1314-1324: the test for [Number] comes
    first and a sympy number passes it. *)
Fixpoint has_nonhomogeneous (l : list bc_value) : bool :=
  match l with
  | [] => false
  | BcNumber v :: t => if negb (v =? 0) then true else has_nonhomogeneous t
  | BcExpr (ENum v) :: t => if negb (v =? 0) then true else has_nonhomogeneous t
  | BcArray a :: t => if negb (forallb (fun x => x =? 0) a) then true else has_nonhomogeneous t
  | BcExpr _ :: _ => true
  | BcOther :: t => has_nonhomogeneous t
  end.

(** [enumerate(l)] *)
Definition enumerate {X : Type} (l : list X) : list (nat * X) :=
  combine (seq 0 (length l)) l.

(** The body of the loop of [update_bcs]. *)
Definition assign_step (acc : list snapshot) (ib : nat * bc_value)
  : res (list snapshot) :=
  if is_other (snd ib) then Raise NotImplementedError
  else setitem acc (fst ib) (Raw (snd ib)).

(** [update_bcs], lines 1102-1113. *)
Definition update_bcs (st : BoundaryValues) (new : option (list bc_value))
  : res BoundaryValues :=
  match new with
  | None => Ok st
  | Some l =>
      let* _ := assert (Nat.eqb (length l) 2 || Nat.eqb (length l) 4) in
      let* bcs' := foldM assign_step (bcs st) (enumerate l) in
      Ok {| base := base st; tensorproductspace := tensorproductspace st;
            bc := l; bcs := bcs'; bcs_final := bcs';
            bv_axis := bv_axis st; bc_time := bc_time st;
            number_of_bases_after_this := number_of_bases_after_this st |}
  end.

(** [__init__], lines 1092-1100. *)
Definition init (T : Base) (l : list bc_value) : res BoundaryValues :=
  update_bcs {| base := T; tensorproductspace := None; bc := l;
                bcs := repeat zero (length l); bcs_final := repeat zero (length l);
                bv_axis := 0; bc_time := 0;
                number_of_bases_after_this := None |} (Some l).

(** The loop of lines 1149-1157 over [reversed(T.axes)]. *)
Definition count_step (T : Orchestrator) (this_base : Base)
  (st : option Z * nat) (axes : list Z) : res (option Z * nat) :=
  let '(ax, n) := st in
  let* a := TPS.last_item axes in
  let* _ := getitemZ (seq 0 (T_nbases T)) a in
  if base_eq T a (axis this_base) then Ok (Some a, n)
  else match ax with
       | None => Ok (None, S n)
       | Some _ => Ok (ax, n)
       end.

Definition count_bases_after (T : Orchestrator) (this_base : Base) : res nat :=
  let* st := foldM (count_step T this_base) (None, O) (rev (T_axes T)) in
  Ok (snd st).

(** Stage [i] followed by transfer [i], as lines 1213-1218 write it: the
    transfer fills the input array of stage [i+1], which must exist. *)
Definition stage_and_transfer (T : Orchestrator) (i : nat) (x : array)
  : res (array * list event) :=
  let* f := getitem (forward_xfftn T) i in
  let arrayA := f x in
  let* _ := getitem (forward_xfftn T) (S i) in
  let* g := getitem (forward_transfer T) i in
  Ok (g arrayA, [RunStage i; RunTransfer i]).

(** Lines 1208-1233: [b_hat] is bound in three cases only. *)
Definition intermediate (T : Orchestrator) (depth : nat) (b : array)
  : res (option array * list event) :=
  match depth with
  | 0%nat => Ok (Some b, [])
  | 1%nat =>
      let* r := stage_and_transfer T 0 b in
      Ok (Some (fst r), snd r)
  | 2%nat =>
      let* r0 := stage_and_transfer T 0 b in
      let* r1 := stage_and_transfer T 1 (fst r0) in
      Ok (Some (fst r1), snd r0 ++ snd r1)
  | _ => Ok (None, [])
  end.

(** Lines 1241-1250: the whole forward pipeline. *)
Definition final (T : Orchestrator) (b : array) : res (array * list event) :=
  let* r := foldM (fun acc i =>
                     let* r := stage_and_transfer T i (fst acc) in
                     Ok (fst r, snd acc ++ snd r))
                  (b, []) (seq 0 (length (forward_transfer T))) in
  let* f := TPS.last_item (forward_xfftn T) in
  Ok (f (fst r), snd r ++ [RunStage (length (forward_xfftn T) - 1)]).

(** [for i in range(len(self.bc)): target[i] = b_hat[this_base.si[-len(self.bc)+i]].copy()] *)
Definition store_slices (T : Orchestrator) (M : nat) (b_hat : option array)
  (target : list snapshot) : res (list snapshot) :=
  foldM (fun acc i =>
           match b_hat with
           | None => Raise UnboundLocalError
           | Some a =>
               setitem acc i (Slice (boundary_slice T a (- Z.of_nat M + Z.of_nat i)))
           end)
        target (seq 0 M).

(** [for i in range(len(self.bc)): self.bcs[i] = self.bcs_final[i] = 0] *)
Definition store_zeros (M : nat) (target : list snapshot) : res (list snapshot) :=
  foldM (fun acc i => setitem acc i zero) target (seq 0 M).

(** [k = 'xyzrs'.index(str(sym))] followed by [X[k]], where [X] has one mesh
    per basis. *)
Definition symbol_axis (ndim : nat) (name : string) : res nat :=
  match String.index 0 name "xyzrs" with
  | Some k => if (k <? ndim)%nat then Ok k else Raise IndexError
  | None => Raise ValueError
  end.

(** The body of the loop of lines 1173-1206 for one slot, up to the write
    into [b]: which slots it accepts. *)
Definition check_slot (ndim : nat) (time : Z) (v : bc_value) : res unit :=
  match v with
  | BcExpr e =>
      let* _ := mapM (symbol_axis ndim) (free_symbols (subs "t" time e)) in Ok tt
  | BcNumber _ | BcArray _ => Ok tt
  | BcOther => Raise NotImplementedError
  end.

(** Lines 1166-1252: both snapshots of the specification [l] at time [time],
    written over [s1] and [s2], and what the pipeline executed for them. *)
Definition tensor_snapshots (T : Orchestrator) (depth : nat) (l : list bc_value)
  (time : Z) (s1 s2 : list snapshot)
  : res (list snapshot * list snapshot * list event) :=
  let* _ := mapM (check_slot (T_nbases T) time) l in
  let b := boundary_array T l time in
  let* r1 := intermediate T depth b in
  let* s1' := store_slices T (length l) (fst r1) s1 in
  let* r2 := final T b in
  let* s2' := store_slices T (length l) (Some (fst r2)) s2 in
  Ok (s1', s2', snd r1 ++ snd r2).

(** [set_tensor_bcs], lines 1129-1252: the new state and what was executed. *)
Definition set_tensor_bcs (st : BoundaryValues) (this_base : Base) (T : space)
  : res (BoundaryValues * list event) :=
  let st0 := {| base := this_base; tensorproductspace := Some T; bc := bc st;
                bcs := bcs st; bcs_final := bcs_final st;
                bv_axis := axis this_base; bc_time := bc_time st;
                number_of_bases_after_this := number_of_bases_after_this st |} in
  match T with
  | OneD => Ok (st0, [])
  | Tensor T' =>
      if has_nonhomogeneous_bcs this_base then
        let* depth := count_bases_after T' this_base in
        if negb (has_nonhomogeneous (bc st)) then
          let* z1 := store_zeros (length (bc st)) (bcs st) in
          let* z2 := store_zeros (length (bc st)) (bcs_final st) in
          Ok ({| base := this_base; tensorproductspace := Some T; bc := bc st;
                 bcs := z1; bcs_final := z2;
                 bv_axis := axis this_base; bc_time := bc_time st;
                 number_of_bases_after_this := Some depth |}, [])
        else
          let* r := tensor_snapshots T' depth (bc st) (bc_time st) (bcs st) (bcs_final st) in
          let '(s1, s2, tr) := r in
          Ok ({| base := this_base; tensorproductspace := Some T; bc := bc st;
                 bcs := s1; bcs_final := s2;
                 bv_axis := axis this_base; bc_time := bc_time st;
                 number_of_bases_after_this := Some depth |}, tr)
      else Ok (st0, [])
  end.

(** The body of the loop of [update_bcs_time], on [bc_time], [bcs] and
    [update_time]. *)
Definition time_step (time : Z) (acc : Z * list snapshot * bool) (ib : nat * bc_value)
  : res (Z * list snapshot * bool) :=
  match snd ib with
  | BcExpr e =>
      if is_time_dependent (BcExpr e) then
        let* cur' := setitem (snd (fst acc)) (fst ib) (Raw (BcExpr (subs "t" time e))) in
        Ok (time, cur', true)
      else Ok acc
  | _ => Ok acc
  end.

(** [update_bcs_time], lines 1115-1127. *)
Definition update_bcs_time (st : BoundaryValues) (time : Z)
  : res (BoundaryValues * list event) :=
  let* r := foldM (time_step time) (bc_time st, bcs st, false) (enumerate (bc st)) in
  let '(tm, cur, upd) := r in
  let st1 := {| base := base st; tensorproductspace := tensorproductspace st;
                bc := bc st; bcs := cur;
                bcs_final := if upd then cur else bcs_final st;
                bv_axis := bv_axis st; bc_time := tm;
                number_of_bases_after_this := number_of_bases_after_this st |} in
  if upd then
    match tensorproductspace st with
    | Some T => set_tensor_bcs st1 (base st) T
    | None => Ok (st1, [])
    end
  else Ok (st1, []).





(** What makes a slot non-homogeneous for [has_nonhomogeneous_bcs]. *)
Definition nonhomogeneous_slot (v : bc_value) : Prop :=
  match v with
  | BcNumber z => z <> 0
  | BcArray a => Exists (fun x => x <> 0) a
  | BcExpr (ENum z) => z <> 0
  | BcExpr _ => True
  | BcOther => False
  end.


(** A group whose closing axis is in range and is ([hit]) or is not the axis
    of [this_base]. *)
Definition ends_at (T : Orchestrator) (this_base : Base) (hit : bool) (g : list Z)
  : Prop :=
  exists a, TPS.last_item g = Ok a
            /\ 0 <= a < Z.of_nat (T_nbases T)
            /\ base_eq T a (axis this_base) = hit.

(** What the pipeline executes for [k] stages each followed by its transfer. *)
Definition stages_and_transfers (k : nat) : list event :=
  flat_map (fun i => [RunStage i; RunTransfer i]) (seq 0 k).

End Splicer.

Arguments snapshot : clear implicits.
Arguments Orchestrator : clear implicits.
Arguments space : clear implicits.
Arguments BoundaryValues : clear implicits.

End Boundary.

(** ** Concrete spaces *)

Module Examples.

Import TPS.

(** Unpadded bases of [n >= 1] points: the two Fourier classes, and a
    basis of the Chebyshev family with boundary conditions, which has
    [n - 2] degrees of freedom. *)
Definition c2c (n : positive) : Basis :=
  {| family := "fourier"; cls := C2CBasis; N := Z.pos n; padded := false;
     pad_extent := fun e => e;
     base_shape := fun _ => Z.pos n; base_dim := Z.pos n;
     plan_dtype := fun _ => Complex; plan_extent := fun e => e;
     has_nonhomogeneous_bcs := false |}.

Definition r2c (n : positive) : Basis :=
  {| family := "fourier"; cls := R2CBasis; N := Z.pos n; padded := false;
     pad_extent := fun e => e;
     base_shape := fun forward_output =>
       if forward_output then Z.pos n / 2 + 1 else Z.pos n;
     base_dim := Z.pos n / 2 + 1;
     plan_dtype := fun _ => Complex; plan_extent := fun e => e / 2 + 1;
     has_nonhomogeneous_bcs := false |}.

Definition chebyshev (n : positive) (nonhomogeneous : bool) : Basis :=
  {| family := "chebyshev"; cls := OtherBasis; N := Z.pos n; padded := false;
     pad_extent := fun e => e;
     base_shape := fun _ => Z.pos n; base_dim := Z.pos n - 2;
     plan_dtype := fun d => d; plan_extent := fun e => e;
     has_nonhomogeneous_bcs := nonhomogeneous |}.

(** One process: every grid extent is 1 and the local shape is the global one. *)
Definition serial : Mpi :=
  {| compute_dims := fun _ dims => map (fun _ => 1) dims;
     repartition := fun sizes _ _ => sizes;
     subshape := fun _ shp _ => shp |}.

(** Two processes on a 2D space, split along axis 0; the local extents of
    either rank when the sizes divide evenly. *)
Definition two_ranks : Mpi :=
  {| compute_dims := fun _ _ => [2; 1];
     repartition := fun sizes _ _ => rev sizes;
     subshape := fun sizes shp _ => map (fun es => fst es / snd es) (combine shp sizes) |}.

(** The orchestrator as the splicer sees it, over arrays that record which
    stages and transfers they went through. *)
Definition splicer_view (T : TensorProductSpace) : Boundary.Orchestrator (list Z) Z :=
  {| Boundary.T_axes := axes T;
     Boundary.T_nbases := length (bases T);
     Boundary.base_eq := Z.eqb;
     Boundary.forward_xfftn := map (fun st => fun a => a ++ [stage_base st]) (xfftn T);
     Boundary.forward_transfer := map (fun tr => fun a => a ++ [- 1]) (transfer T);
     Boundary.boundary_array := fun l time => [Z.of_nat (length l); time];
     Boundary.boundary_slice := fun a k => k + Z.of_nat (length a) |}.


Definition dirichlet0 : Boundary.Base :=
  {| Boundary.axis := 0; Boundary.has_nonhomogeneous_bcs := true |}.

(** The state [BoundaryValues(T, bc=l)] starts in, for slots [l] that are
    numbers, arrays or expressions. *)
Definition fresh (l : list Boundary.bc_value) : Boundary.BoundaryValues (list Z) Z :=
  {| Boundary.base := dirichlet0; Boundary.tensorproductspace := None;
     Boundary.bc := l;
     Boundary.bcs := map (@Boundary.Raw Z) l;
     Boundary.bcs_final := map (@Boundary.Raw Z) l;
     Boundary.bv_axis := 0; Boundary.bc_time := 0;
     Boundary.number_of_bases_after_this := None |}.

(** Two non-periodic axes on one process, as in [demo/Stokes2NP.py]. *)
Definition stokes_space : TensorProductSpace :=
  let p := {| pencil_subcomm := [1; 1]; pencil_shape := [40; 40]; pencil_axis := 1 |} in
  let q := {| pencil_subcomm := [1; 1]; pencil_shape := [40; 40]; pencil_axis := 0 |} in
  {| bases := [chebyshev 40 false; chebyshev 40 false];
     axes := [[0]; [1]];
     subcomm := [1; 1];
     xfftn := [ {| stage_axes := [1]; stage_base := 1; stage_in := Real; stage_out := Real |};
                {| stage_axes := [0]; stage_base := 0; stage_in := Real; stage_out := Real |} ];
     transfer := [ {| transfer_from := p; transfer_to := q; transfer_dtype := Real |} ];
     pencil := (p, q);
     shape := fun _ => [40; 40] |}.

(** The same, bound to the orchestrator [T] by an earlier [set_tensor_bcs]. *)
Definition bound (T : TensorProductSpace) (l : list Boundary.bc_value)
  : Boundary.BoundaryValues (list Z) Z :=
  {| Boundary.base := dirichlet0;
     Boundary.tensorproductspace := Some (Boundary.Tensor (splicer_view T));
     Boundary.bc := l;
     Boundary.bcs := map (@Boundary.Raw Z) l;
     Boundary.bcs_final := map (@Boundary.Raw Z) l;
     Boundary.bv_axis := 0; Boundary.bc_time := 0;
     Boundary.number_of_bases_after_this := None |}.

(** Dirichlet x Fourier, 8 x 8, one process. *)
Definition space2 : res TensorProductSpace :=
  init serial (Comm 1) [chebyshev 8 true; r2c 8] Axes.AxesNone None false false None.

(** Dirichlet x Fourier x Fourier x Fourier, one process. *)
Definition space4 : res TensorProductSpace :=
  init serial (Comm 1) [chebyshev 8 true; c2c 8; c2c 8; r2c 8]
       Axes.AxesNone None false false None.

(** Chebyshev x Fourier, 8 x 8, built from the spectral side as
    [get_dealiased] does: from the last pencil of an 8 x 5 spectrum. *)
Definition spectral_pencil : Pencil :=
  {| pencil_subcomm := [1; 1]; pencil_shape := [8; 5]; pencil_axis := 0 |}.

Definition space2_from_pencil : res TensorProductSpace :=
  init serial (Comm 1) [chebyshev 8 false; r2c 8] Axes.AxesNone (Some Complex)
       false true (Some spectral_pencil).

(** The orchestrator that a successful construction returned. *)
Definition built (r : res TensorProductSpace) : TensorProductSpace :=
  match r with Ok T => T | Raise _ => stokes_space end.

Definition T2 : TensorProductSpace := built space2.
Definition T4 : TensorProductSpace := built space4.


(** Fourier x Fourier x Fourier with the first two axes given as one group. *)
Definition grouped3 (collapse_fourier : bool) : res TensorProductSpace :=
  init serial (Comm 1) [c2c 8; c2c 8; r2c 8]
       (Axes.AxesSeq [Axes.AxGroup [0; 1]; Axes.AxInt 2]) None false collapse_fourier None.

End Examples.

(** * Properties *)

(** ** The exception monad *)

Lemma bind_ok {X Y : Type} (c : res X) (k : X -> res Y) (y : Y) :
  bind c k = Ok y -> exists x, c = Ok x /\ k x = Ok y.
Proof.
  destruct c as [x|e]; simpl; intro H; [exists x; auto | discriminate].
Qed.

Lemma assert_ok (b : bool) (u : unit) : assert b = Ok u -> b = true.
Proof.
  destruct b; simpl; [reflexivity | discriminate].
Qed.

Ltac inv_bind H :=
  let x := fresh "x" in
  let Hx := fresh "Hx" in
  apply bind_ok in H; destruct H as (x & Hx & H).

Lemma mapM_ok_iff {A B : Type} (f : A -> res B) (xs : list A) (ys : list B) :
  mapM f xs = Ok ys <-> Forall2 (fun x y => f x = Ok y) xs ys.
Proof.
  revert ys; induction xs as [|x xs IH]; intros ys; simpl.
  - split; intro H.
    + injection H as <-. constructor.
    + inversion H. reflexivity.
  - split; intro H.
    + inv_bind H. inv_bind H. injection H as <-.
      constructor; [assumption | apply IH; assumption].
    + inversion H as [|? y ? ys' Hy Hys]; subst.
      rewrite Hy; simpl. apply IH in Hys. rewrite Hys. reflexivity.
Qed.

Lemma mapM_raise_iff {A B : Type} (f : A -> res B) (xs : list A) :
  (exists e, mapM f xs = Raise e) <-> Exists (fun x => exists e, f x = Raise e) xs.
Proof.
  induction xs as [|x xs IH]; simpl.
  - split; [intros (e & H); discriminate | intro H; inversion H].
  - destruct (f x) as [y|e] eqn:Hy; simpl.
    + destruct (mapM f xs) as [ys|e'] eqn:Hys; simpl.
      * split; [intros (e & H); discriminate|].
        intro H. inversion H as [? ? (e & He)|? ? Hex]; subst.
        -- congruence.
        -- apply IH in Hex. destruct Hex as (e & He). discriminate.
      * split; [|intros _; eauto].
        intros _. apply Exists_cons_tl. apply IH. eauto.
    + split; [|intros _; eauto].
      intros _. apply Exists_cons_hd. eauto.
Qed.

Lemma foldM_invariant {A B : Type} (P : A -> Prop) (f : A -> B -> res A) :
  (forall a x a', P a -> f a x = Ok a' -> P a') ->
  forall xs a0 a, P a0 -> foldM f a0 xs = Ok a -> P a.
Proof.
  intros Hstep xs; induction xs as [|x xs IH]; intros a0 a H0 H; simpl in H.
  - injection H as <-. assumption.
  - inv_bind H. eapply IH; [|eassumption]. eapply Hstep; eassumption.
Qed.

Lemma foldM_app {A B : Type} (f : A -> B -> res A) (xs ys : list B) (a : A) :
  foldM f a (xs ++ ys) = bind (foldM f a xs) (fun a' => foldM f a' ys).
Proof.
  revert a; induction xs as [|x xs IH]; intro a; simpl; [reflexivity|].
  destruct (f a x) as [a'|e]; simpl; [apply IH | reflexivity].
Qed.

(** ** Axis order *)

Lemma fold_min_nonneg (t : list Z) (a : Z) :
  0 <= fold_left Z.min t a <-> Forall (fun x => 0 <= x) (a :: t).
Proof.
  revert a; induction t as [|b t IH]; intros a; simpl.
  - split; [intro; constructor; auto | intro H; inversion H; assumption].
  - rewrite IH. split; intro H.
    + inversion H as [|? ? Hm Ht]; subst.
      constructor; [lia|]. constructor; [lia | assumption].
    + inversion H as [|? ? Ha Hbt]; subst. inversion Hbt; subst.
      constructor; [lia | assumption].
Qed.

Lemma fold_max_below (n : Z) (t : list Z) (a : Z) :
  fold_left Z.max t a < n <-> Forall (fun x => x < n) (a :: t).
Proof.
  revert a; induction t as [|b t IH]; intros a; simpl.
  - split; [intro; constructor; auto | intro H; inversion H; assumption].
  - rewrite IH. split; intro H.
    + inversion H as [|? ? Hm Ht]; subst.
      constructor; [lia|]. constructor; [lia | assumption].
    + inversion H as [|? ? Ha Hbt]; subst. inversion Hbt; subst.
      constructor; [lia | assumption].
Qed.

Lemma length_insert_sorted (a : Z) (l : list Z) :
  length (Axes.insert_sorted a l) = S (length l).
Proof.
  induction l as [|b t IH]; simpl; [reflexivity|].
  destruct (a <=? b); simpl; [reflexivity | now rewrite IH].
Qed.

Lemma length_sorted (l : list Z) : length (Axes.sorted l) = length l.
Proof.
  induction l as [|a t IH]; simpl; [reflexivity|].
  now rewrite length_insert_sorted, IH.
Qed.

Lemma length_nodup_le (l : list Z) : (length (nodup Z.eq_dec l) <= length l)%nat.
Proof.
  induction l as [|a t IH]; simpl; [lia|].
  destruct (in_dec Z.eq_dec a t); simpl; lia.
Qed.

Lemma nodup_same_length (l : list Z) :
  length (nodup Z.eq_dec l) = length l -> NoDup l.
Proof.
  induction l as [|a t IH]; simpl; intro H; [constructor|].
  destruct (in_dec Z.eq_dec a t) as [Hin|Hnin]; simpl in H.
  - pose proof (length_nodup_le t). lia.
  - constructor; [assumption | apply IH; lia].
Qed.

(** [sorted(g) == sorted(set(g))] holds exactly of a group without repetition. *)
Lemma sorted_set_test (g : list Z) :
  Axes.list_eqb (Axes.sorted g) (Axes.sorted (Axes.pyset g)) = true <-> NoDup g.
Proof.
  unfold Axes.list_eqb, Axes.pyset.
  destruct (list_eq_dec Z.eq_dec _ _) as [E|E]; split; intro H; try discriminate.
  - apply nodup_same_length.
    apply (f_equal (@length Z)) in E. rewrite !length_sorted in E. congruence.
  - reflexivity.
  - exfalso. apply E. now rewrite (nodup_fixed_point Z.eq_dec H).
Qed.

Lemma range_nodup_length (n : Z) (g : list Z) :
  Forall (fun a => 0 <= a < n) g -> NoDup g -> Z.of_nat (length g) <= Z.max 0 n.
Proof.
  intros Hr Hn.
  assert (Hincl : incl g (map Z.of_nat (seq 0 (Z.to_nat n)))).
  { intros a Ha. rewrite Forall_forall in Hr. specialize (Hr a Ha).
    apply in_map_iff. exists (Z.to_nat a). split; [lia|].
    apply in_seq. lia. }
  pose proof (NoDup_incl_length Hn Hincl) as Hl.
  rewrite length_map, length_seq in Hl. lia.
Qed.

(** The assertions of lines 91-94 pass exactly on the valid groups. *)
Lemma check_group_ok_iff (n : Z) (g : list Z) :
  Axes.check_group n g = Ok tt <-> Axes.group_valid n g.
Proof.
  unfold Axes.check_group, Axes.group_valid.
  destruct g as [|a t].
  - simpl. split; [discriminate | intros (H & _); congruence].
  - pose proof (fold_min_nonneg t a) as Hmin.
    pose proof (fold_max_below n t a) as Hmax.
    pose proof (sorted_set_test (a :: t)) as Hset.
    cbn [Axes.pymin Axes.pymax bind].
    remember (a :: t) as g eqn:Eg.
    split.
    + intro H.
      inv_bind H. apply assert_ok, Z.leb_le in Hx.
      inv_bind H. apply assert_ok, Z.ltb_lt in Hx0.
      inv_bind H. clear Hx1.
      apply assert_ok in H. apply Hset in H.
      apply Hmin in Hx. apply Hmax in Hx0.
      split; [subst g; discriminate|]. split; [|assumption].
      rewrite Forall_forall in *. intros y Hy.
      specialize (Hx y Hy). specialize (Hx0 y Hy). lia.
    + intros (_ & Hr & Hn).
      assert (H0 : Forall (fun x => 0 <= x) g).
      { eapply Forall_impl; [|exact Hr]. simpl; intros; lia. }
      assert (H1 : Forall (fun x => x < n) g).
      { eapply Forall_impl; [|exact Hr]. simpl; intros; lia. }
      apply Hmin, Z.leb_le in H0. apply Hmax, Z.ltb_lt in H1.
      rewrite H0, H1. cbn [assert bind].
      pose proof (range_nodup_length Hr Hn) as Hl.
      assert (Hpos : 0 < n) by (subst g; inversion Hr; subst; lia).
      assert (Hlen : (0 <? Z.of_nat (length g)) && (Z.of_nat (length g) <=? n) = true).
      { apply andb_true_iff. split; [apply Z.ltb_lt; subst g; simpl; lia|].
        apply Z.leb_le. lia. }
      rewrite Hlen. cbn [assert bind].
      apply Hset in Hn. rewrite Hn. reflexivity.
Qed.

Lemma check_group_unit (n : Z) (g : list Z) (u : unit) :
  Axes.check_group n g = Ok u <-> Axes.group_valid n g.
Proof.
  destruct u. apply check_group_ok_iff.
Qed.

Lemma normalize_item_ok_iff (n : Z) (it : Axes.axitem) (g : list Z) :
  Axes.normalize_item n it = Ok g <->
  g = Axes.wrap_item n it /\ Axes.group_valid n g.
Proof.
  unfold Axes.normalize_item. split.
  - intro H. inv_bind H. injection H as <-.
    split; [reflexivity | eapply check_group_unit; eassumption].
  - intros (-> & Hv). apply (check_group_ok_iff n) in Hv. rewrite Hv. reflexivity.
Qed.

Lemma normalize_item_raise_iff (n : Z) (it : Axes.axitem) :
  (exists e, Axes.normalize_item n it = Raise e) <->
  ~ Axes.group_valid n (Axes.wrap_item n it).
Proof.
  destruct (Axes.normalize_item n it) as [g|e] eqn:E.
  - apply normalize_item_ok_iff in E. destruct E as (-> & Hv).
    split; [intros (e & He); discriminate | intro H; contradiction].
  - split; [|eauto]. intros _ Hv.
    assert (Axes.normalize_item n it = Ok (Axes.wrap_item n it)) as E'
      by (apply normalize_item_ok_iff; auto).
    congruence.
Qed.

Lemma normalize_axes_ok_iff (n : Z) (l : list Axes.axitem) (gs : list (list Z)) :
  Axes.normalize_axes n (Axes.AxesSeq l) = Ok gs <->
  gs = map (Axes.wrap_item n) l /\ Forall (Axes.group_valid n) gs.
Proof.
  unfold Axes.normalize_axes. rewrite mapM_ok_iff.
  revert gs; induction l as [|it l IH]; intros gs; split.
  - intro H; inversion H; subst. split; [reflexivity | constructor].
  - intros (-> & _). constructor.
  - intro H. inversion H as [|? g ? gs' Hg Hgs]; subst.
    apply normalize_item_ok_iff in Hg. destruct Hg as (-> & Hv).
    apply IH in Hgs. destruct Hgs as (-> & Hvs).
    split; [reflexivity | constructor; assumption].
  - intros (-> & Hv). simpl in Hv. inversion Hv; subst.
    constructor; [apply normalize_item_ok_iff; auto | apply IH; auto].
Qed.

Lemma normalize_axes_raise_iff (n : Z) (l : list Axes.axitem) :
  (exists e, Axes.normalize_axes n (Axes.AxesSeq l) = Raise e) <->
  Exists (fun it => ~ Axes.group_valid n (Axes.wrap_item n it)) l.
Proof.
  unfold Axes.normalize_axes. rewrite mapM_raise_iff.
  split; intro H; (eapply Exists_impl; [|exact H]); intros it Hit;
    apply normalize_item_raise_iff; assumption.
Qed.

Lemma length_bases_shape (bs : list TPS.Basis) (fo : bool) :
  length (TPS.bases_shape bs fo) = length bs.
Proof.
  unfold TPS.bases_shape. apply length_map.
Qed.

Lemma init_normalized (mpi : TPS.Mpi) (comm : TPS.comm_arg) (bs : list TPS.Basis)
  (axs : Axes.axes_arg) (dt : option TPS.dtype) (slab cf : bool)
  (bfp : option TPS.Pencil) (T : TPS.TensorProductSpace) :
  TPS.init mpi comm bs axs dt slab cf bfp = Ok T ->
  exists gs, Axes.normalize_axes (Z.of_nat (length bs)) axs = Ok gs.
Proof.
  unfold TPS.init. intro H.
  inv_bind H. inv_bind H. inv_bind H. inv_bind H.
  rewrite length_bases_shape in Hx2. eauto.
Qed.

(** C6, as amended: the validation of the [axes] argument raises exactly
    when some group, once its negative entries are shifted by the number of
    bases, is empty, holds an axis outside the bases or repeats an axis
    within the group; construction then raises too and returns no pipeline.
    Nothing is checked across groups. *)
Theorem init_rejects_invalid_groups (mpi : TPS.Mpi) (comm : TPS.comm_arg)
  (bs : list TPS.Basis) (l : list Axes.axitem) (dt : option TPS.dtype)
  (slab cf : bool) (bfp : option TPS.Pencil) :
  let n := Z.of_nat (length bs) in
  let invalid := fun it => ~ Axes.group_valid n (Axes.wrap_item n it) in
  ((exists e, Axes.normalize_axes n (Axes.AxesSeq l) = Raise e) <-> Exists invalid l)
  /\ (Exists invalid l ->
      exists e, TPS.init mpi comm bs (Axes.AxesSeq l) dt slab cf bfp = Raise e)
  /\ (forall gs, Axes.normalize_axes n (Axes.AxesSeq l) = Ok gs <->
        gs = map (Axes.wrap_item n) l /\ Forall (Axes.group_valid n) gs).
Proof.
  intros n invalid. split; [apply normalize_axes_raise_iff|].
  split; [|intro gs; apply normalize_axes_ok_iff].
  intro Hex.
  destruct (TPS.init mpi comm bs (Axes.AxesSeq l) dt slab cf bfp) as [T|e] eqn:E;
    [|eauto].
  apply init_normalized in E. destruct E as (gs & Hgs).
  apply normalize_axes_raise_iff in Hex. destruct Hex as (e & He).
  fold n in Hgs. congruence.
Qed.

Lemma init_rejects_invalid_groups_witness :
  exists e, TPS.init Examples.serial (TPS.Comm 1)
              [Examples.c2c 8; Examples.r2c 8]
              (Axes.AxesSeq [Axes.AxGroup [0; 0]; Axes.AxInt 1]) None false false None
            = Raise e.
Proof.
  apply (init_rejects_invalid_groups Examples.serial (TPS.Comm 1)
           [Examples.c2c 8; Examples.r2c 8]
           [Axes.AxGroup [0; 0]; Axes.AxInt 1] None false false None).
  apply Exists_cons_hd. simpl. intros (_ & _ & Hn).
  inversion Hn as [|? ? Hin _]; subst. apply Hin. left. reflexivity.
Defined.

(** C6, as stated, fails: an axis order that leaves axis 0 out is accepted
    and a pipeline of one stage is returned; so is, by the validation, an
    order that names axis 0 in two groups. *)
Lemma axes_missing_axis_accepted :
  (exists T,
      TPS.init Examples.serial (TPS.Comm 1)
        [Examples.chebyshev 8 false; Examples.chebyshev 8 false]
        (Axes.AxesSeq [Axes.AxInt 1]) None false false None = Ok T
      /\ length (TPS.xfftn T) = 1%nat
      /\ ~ Axes.is_axis_permutation 2 (TPS.axes T))
  /\ (exists gs,
      Axes.normalize_axes 2 (Axes.AxesSeq [Axes.AxInt 0; Axes.AxInt 0]) = Ok gs
      /\ ~ Axes.is_axis_permutation 2 gs).
Proof.
  split.
  - eexists. split; [vm_compute; reflexivity|]. split; [reflexivity|].
    intro H. apply Permutation_length in H. discriminate.
  - eexists. split; [vm_compute; reflexivity|].
    unfold Axes.is_axis_permutation. simpl. intro H.
    assert (Hin : In 1 [0; 0]).
    { eapply Permutation_in; [apply Permutation_sym; exact H|]. simpl. auto. }
    simpl in Hin. destruct Hin as [Hin|[Hin|[]]]; discriminate.
Qed.

(** ** Queries *)

Lemma prod_fold_right (l : list Z) : TPS.prod l = fold_right Z.mul 1 l.
Proof.
  unfold TPS.prod.
  assert (H : forall a, fold_left Z.mul l a = a * fold_right Z.mul 1 l).
  { induction l as [|x t IH]; intro a; simpl; [lia|]. rewrite IH. lia. }
  rewrite H. lia.
Qed.

Lemma configure_pencil0 (mpi : TPS.Mpi) (sizes : list Z) (bs : list TPS.Basis)
  (shp : list Z) (axs : list (list Z)) (dt : TPS.dtype) (p0 : TPS.Pencil)
  (s : TPS.build) :
  TPS.configure mpi sizes bs shp axs dt = Ok (p0, s) ->
  TPS.pencil_shape p0 = shp /\ TPS.pencil_subcomm p0 = sizes.
Proof.
  unfold TPS.configure. intro H.
  inv_bind H. inv_bind H. inv_bind H.
  destruct x1 as ((st, shp'), dt'). inv_bind H.
  injection H as <- _. simpl. auto.
Qed.

Lemma setitem_other {X : Type} (l l' : list X) (k : nat) (v : X) :
  setitem l k v = Ok l' ->
  length l' = length l /\ forall i, i <> k -> nth_error l' i = nth_error l i.
Proof.
  revert l' k; induction l as [|h l IH]; intros l' k H; [discriminate|].
  destruct k; simpl in H.
  - injection H as <-. split; [reflexivity|]. intros [|i] Hi; [congruence | reflexivity].
  - inv_bind H. injection H as <-. destruct (IH _ _ Hx) as (Hl & Hn).
    split; [simpl; congruence|]. intros [|i] Hi; [reflexivity|].
    simpl. apply Hn. congruence.
Qed.

(** [l[a] = v] writes at position [a mod len(l)] and nowhere else. *)
Lemma setitemZ_other {X : Type} (l l' : list X) (a : Z) (v : X) :
  TPS.setitemZ l a v = Ok l' ->
  length l' = length l
  /\ forall i, i <> Z.to_nat (a mod Z.of_nat (length l)) ->
                nth_error l' i = nth_error l i.
Proof.
  unfold TPS.setitemZ. intro H.
  destruct ((0 <=? a) && (a <? Z.of_nat (length l))) eqn:E1.
  - apply andb_true_iff in E1. destruct E1 as (H0 % Z.leb_le & H1 % Z.ltb_lt).
    rewrite Z.mod_small by lia. eapply setitem_other; eassumption.
  - destruct ((- Z.of_nat (length l) <=? a) && (a <? 0)) eqn:E2; [|discriminate].
    apply andb_true_iff in E2. destruct E2 as (H0 % Z.leb_le & H1 % Z.ltb_lt).
    replace (a mod Z.of_nat (length l)) with (a + Z.of_nat (length l))
      by (apply Z.mod_unique with (q := -1); lia).
    eapply setitem_other; eassumption.
Qed.

(** Planning a stage changes the global shape along the axis of its basis
    only. *)
Lemma plan_group_shape (bs : list TPS.Basis) (shp : list Z) (g : list Z)
  (dt : TPS.dtype) (st : TPS.Stage) (shp' : list Z) (dt' : TPS.dtype) :
  TPS.plan_group bs shp g dt = Ok (st, shp', dt') ->
  length shp' = length shp
  /\ forall i, i <> Z.to_nat (TPS.stage_base st mod Z.of_nat (length shp)) ->
                nth_error shp' i = nth_error shp i.
Proof.
  unfold TPS.plan_group. intro H.
  inv_bind H. inv_bind H. inv_bind H.
  destruct ((x1 =? TPS.plan_extent x0 x1) && TPS.dtype_eqb dt (TPS.plan_dtype x0 dt)).
  - injection H as <- <- _. auto.
  - inv_bind H. injection H as <- <- _. simpl. eapply setitemZ_other; eassumption.
Qed.

(** The global shape of the last pencil differs from the shape the
    configuration started from along the axes of the stages only. *)
Lemma configure_last_pencil (mpi : TPS.Mpi) (sizes : list Z) (bs : list TPS.Basis)
  (shp : list Z) (axs : list (list Z)) (dt : TPS.dtype) (p0 : TPS.Pencil)
  (s : TPS.build) :
  TPS.configure mpi sizes bs shp axs dt = Ok (p0, s) ->
  forall i,
    (forall st, In st (TPS.b_xfftn s) ->
                i <> Z.to_nat (TPS.stage_base st mod Z.of_nat (length shp))) ->
    nth_error (TPS.pencil_shape (TPS.b_pencilA s)) i = nth_error shp i.
Proof.
  unfold TPS.configure. intro H.
  inv_bind H. inv_bind H. inv_bind H.
  destruct x1 as ((st, shp'), dt'). inv_bind H.
  injection H as _ <-.
  set (P := fun b : TPS.build =>
              TPS.pencil_shape (TPS.b_pencilA b) = TPS.b_shape b
              /\ length (TPS.b_shape b) = length shp
              /\ forall i,
                  (forall st, In st (TPS.b_xfftn b) ->
                     i <> Z.to_nat (TPS.stage_base st mod Z.of_nat (length shp))) ->
                  nth_error (TPS.b_shape b) i = nth_error shp i).
  assert (HP : P x1).
  { eapply (foldM_invariant P); [| |exact Hx2].
    - clear. intros b g b' (Hp & Hl & Hn) Hstep.
      unfold TPS.configure_step in Hstep.
      inv_bind Hstep. inv_bind Hstep.
      destruct x0 as ((st, shp'), dt'). injection Hstep as <-.
      destruct (plan_group_shape _ _ _ _ Hx0) as (Hl' & Hn').
      unfold P; cbn [TPS.b_pencilA TPS.b_shape TPS.b_xfftn TPS.pencil_shape].
      split; [reflexivity|]. split; [congruence|].
      intros i Hi. rewrite Hn'.
      + apply Hn. intros st0 Hin. apply Hi. apply in_or_app. left. exact Hin.
      + rewrite Hl. apply Hi. apply in_or_app. right. left. reflexivity.
    - destruct (plan_group_shape _ _ _ _ Hx1) as (Hl' & Hn').
      unfold P; cbn [TPS.b_pencilA TPS.b_shape TPS.b_xfftn TPS.pencil_shape].
      split; [reflexivity|]. split; [assumption|].
      intros i Hi. apply Hn'. apply Hi. left. reflexivity. }
  destruct HP as (Hp & _ & Hn). intros i Hi. rewrite Hp. apply Hn. exact Hi.
Qed.

Lemma init_pencils (mpi : TPS.Mpi) (comm : TPS.comm_arg) (bs : list TPS.Basis)
  (axs : Axes.axes_arg) (dt : option TPS.dtype) (slab cf : bool)
  (T : TPS.TensorProductSpace) :
  TPS.init mpi comm bs axs dt slab cf None = Ok T ->
  TPS.bases T = bs
  /\ (forall fo,
        TPS.shape T fo
        = let p := if fo then snd (TPS.pencil T) else fst (TPS.pencil T) in
          TPS.subshape mpi (TPS.pencil_subcomm p) (TPS.pencil_shape p)
                       (TPS.pencil_axis p))
  /\ TPS.pencil_shape (fst (TPS.pencil T)) = TPS.bases_shape bs false
  /\ forall i,
      (forall st, In st (TPS.xfftn T) ->
                  i <> Z.to_nat (TPS.stage_base st mod Z.of_nat (length bs))) ->
      nth_error (TPS.pencil_shape (snd (TPS.pencil T))) i
      = nth_error (TPS.bases_shape bs false) i.
Proof.
  unfold TPS.init. intro H.
  repeat inv_bind H.
  match type of H with
  | context [let '(_, _) := ?p in _] => destruct p as (pencil0, s)
  end.
  injection H as <-. cbn [TPS.bases TPS.shape TPS.pencil TPS.xfftn fst snd].
  match goal with
  | Hc : TPS.configure _ _ _ _ _ _ = Ok _ |- _ =>
      pose proof (configure_pencil0 _ _ _ _ _ _ Hc) as (Hp0 & _);
      pose proof (configure_last_pencil _ _ _ _ _ _ Hc) as Hlast
  end.
  rewrite length_bases_shape in Hlast.
  split; [reflexivity|]. split; [intros [|]; reflexivity|].
  split; [exact Hp0 | exact Hlast].
Qed.

(** C7, as amended: [size(forward_output)] of an orchestrator built without
    [backward_from_pencil] is the product of the extents of the part of the
    array that the calling process holds: the part of the first pencil for
    physical space, whose global shape is [global_shape(False)], and the
    part of the last pencil for spectral space, whose global shape keeps the
    physical extent along every axis that is not the last axis of a group.
    Where the process holds the whole array, [size(False)] is the product
    of the global physical extents. *)
Theorem size_is_local_product (mpi : TPS.Mpi) (comm : TPS.comm_arg)
  (bs : list TPS.Basis) (axs : Axes.axes_arg) (dt : option TPS.dtype)
  (slab cf : bool) (T : TPS.TensorProductSpace) :
  TPS.init mpi comm bs axs dt slab cf None = Ok T ->
  let local := fun p => TPS.subshape mpi (TPS.pencil_subcomm p) (TPS.pencil_shape p)
                                     (TPS.pencil_axis p) in
  TPS.size T false = fold_right Z.mul 1 (local (fst (TPS.pencil T)))
  /\ TPS.size T true = fold_right Z.mul 1 (local (snd (TPS.pencil T)))
  /\ TPS.pencil_shape (fst (TPS.pencil T)) = TPS.global_shape T false
  /\ (forall i,
        (forall st, In st (TPS.xfftn T) ->
           i <> Z.to_nat (TPS.stage_base st mod Z.of_nat (length (TPS.bases T)))) ->
        nth_error (TPS.pencil_shape (snd (TPS.pencil T))) i
        = nth_error (TPS.global_shape T false) i)
  /\ ((forall g shp a, TPS.subshape mpi g shp a = shp) ->
      TPS.size T false = fold_right Z.mul 1 (TPS.global_shape T false)).
Proof.
  intros H local.
  destruct (init_pencils _ _ _ _ _ _ _ H) as (Hb & Hs & Hp0 & Hlast).
  unfold TPS.size, TPS.global_shape. rewrite !prod_fold_right, !Hs, Hb.
  cbn zeta. fold (local (fst (TPS.pencil T))). fold (local (snd (TPS.pencil T))).
  split; [reflexivity|]. split; [reflexivity|]. split; [exact Hp0|].
  split; [exact Hlast|].
  intro Hlocal. unfold local. now rewrite Hlocal, Hp0.
Qed.

Lemma size_is_local_product_witness :
  match Examples.space2 with
  | Ok T => TPS.size T false = fold_right Z.mul 1 (TPS.global_shape T false)
  | Raise _ => False
  end.
Proof.
  destruct Examples.space2 as [T|e] eqn:E; unfold Examples.space2 in E.
  - apply (size_is_local_product _ _ _ _ _ _ _ E). reflexivity.
  - vm_compute in E. discriminate.
Defined.

(** C7, as stated, fails: on two processes an 8 x 8 space holds 32 elements
    per process, and [size()] returns 32, not 64; and on one process a
    space whose real-to-complex axis is in no group holds 64 coefficients
    where the global spectral extents multiply to 40. *)
Lemma size_is_not_global_product :
  (exists T,
    TPS.init Examples.two_ranks (TPS.Comm 2) [Examples.c2c 8; Examples.r2c 8]
      Axes.AxesNone None false false None = Ok T
    /\ TPS.global_shape T false = [8; 8]
    /\ TPS.size T false = 32
    /\ TPS.size T false <> TPS.prod (TPS.global_shape T false))
  /\ (exists T,
    TPS.init Examples.serial (TPS.Comm 1) [Examples.c2c 8; Examples.r2c 8]
      (Axes.AxesScalar 0) None false false None = Ok T
    /\ TPS.global_shape T true = [8; 5]
    /\ TPS.size T true = 64
    /\ TPS.size T true <> TPS.prod (TPS.global_shape T true)).
Proof.
  split.
  - eexists. split; [vm_compute; reflexivity|].
    split; [reflexivity|]. split; [reflexivity|]. vm_compute. discriminate.
  - eexists. split; [vm_compute; reflexivity|].
    split; [reflexivity|]. split; [reflexivity|]. vm_compute. discriminate.
Qed.

Lemma nonperiodic_from_spec (bs : list TPS.Basis) (start k : nat) :
  In k (TPS.nonperiodic_from start bs) <->
  exists b, (start <= k)%nat /\ nth_error bs (k - start) = Some b
            /\ TPS.family b <> "fourier"%string.
Proof.
  revert start; induction bs as [|b t IH]; intro start; simpl.
  - split; [intros [] | intros (b & _ & H & _)].
    destruct (k - start)%nat; discriminate.
  - destruct (String.eqb_spec (TPS.family b) "fourier") as [E|E].
    + rewrite IH. split; intros (b' & Hle & Hn & Hf).
      * exists b'. split; [lia|]. split; [|assumption].
        replace (k - start)%nat with (S (k - S start)) by lia. assumption.
      * destruct (k - start)%nat as [|j] eqn:Ej; simpl in Hn.
        -- injection Hn as <-. contradiction.
        -- exists b'. split; [lia|]. split; [|assumption].
           replace (k - S start)%nat with j by lia. assumption.
    + simpl. rewrite IH. split.
      * intros [<-|(b' & Hle & Hn & Hf)].
        -- exists b. split; [lia|]. rewrite Nat.sub_diag. auto.
        -- exists b'. split; [lia|]. split; [|assumption].
           replace (k - start)%nat with (S (k - S start)) by lia. assumption.
      * intros (b' & Hle & Hn & Hf).
        destruct (k - start)%nat as [|j] eqn:Ej; simpl in Hn.
        -- left. lia.
        -- right. exists b'. split; [lia|]. split; [|assumption].
           replace (k - S start)%nat with j by lia. assumption.
Qed.

(** [get_nonperiodic_axes] lists the axes whose basis is not of the Fourier family. *)
Lemma get_nonperiodic_axes_spec (T : TPS.TensorProductSpace) (k : nat) :
  In k (TPS.get_nonperiodic_axes T) <->
  exists b, nth_error (TPS.bases T) k = Some b /\ TPS.family b <> "fourier"%string.
Proof.
  unfold TPS.get_nonperiodic_axes. rewrite nonperiodic_from_spec.
  rewrite Nat.sub_0_r. split; intros (b & H); exists b; intuition lia.
Qed.

(** C10: with more than one non-periodic axis, a call of [eval] that asks
    for method 0 or method 1 is served by the python implementation. *)
Theorem eval_falls_back_to_python (T : TPS.TensorProductSpace) (method : Z) :
  method = 0 \/ method = 1 ->
  (1 < length (TPS.get_nonperiodic_axes T))%nat ->
  TPS.eval T method = TPS.EvalPython.
Proof.
  intros _ Hlen. unfold TPS.eval.
  apply Nat.ltb_lt in Hlen. rewrite Hlen. reflexivity.
Qed.

Lemma eval_falls_back_to_python_witness :
  TPS.eval Examples.stokes_space 0 = TPS.EvalPython
  /\ TPS.eval Examples.stokes_space 1 = TPS.EvalPython.
Proof.
  split.
  - apply (@eval_falls_back_to_python Examples.stokes_space 0);
      [left; reflexivity | simpl; lia].
  - apply (@eval_falls_back_to_python Examples.stokes_space 1);
      [right; reflexivity | simpl; lia].
Defined.

(** With at most one non-periodic axis the requested method is the one used. *)
Lemma eval_keeps_method (T : TPS.TensorProductSpace) :
  (length (TPS.get_nonperiodic_axes T) <= 1)%nat ->
  TPS.eval T 0 = TPS.EvalLmCython /\ TPS.eval T 1 = TPS.EvalCython
  /\ TPS.eval T 2 = TPS.EvalPython.
Proof.
  intro Hlen. unfold TPS.eval.
  assert (E : (1 <? length (TPS.get_nonperiodic_axes T))%nat = false)
    by (apply Nat.ltb_ge; assumption).
  rewrite E. auto.
Qed.

(** ** Composite spaces *)

(** Induction over nested composite spaces. *)
Lemma space_nested_ind (P : Mixed.space -> Prop) :
  (forall T, P (Mixed.Leaf T)) ->
  (forall spaces, Forall P spaces -> P (Mixed.Composite spaces)) ->
  forall l, P l.
Proof.
  intros HLeaf HComposite.
  fix IH 1. intros [T|spaces].
  - apply HLeaf.
  - apply HComposite. induction spaces as [|i spaces IHs]; constructor.
    + apply IH.
    + exact IHs.
Qed.

(** The accumulating traversal appends the leaves, depth first and left to right. *)
Lemma recursiveflatten_leaves (l : Mixed.space) :
  forall s, Mixed._recursiveflatten l s = s ++ Mixed.leaves l.
Proof.
  induction l as [T|spaces IH] using space_nested_ind; intro s.
  - reflexivity.
  - simpl. revert s. induction IH as [|i spaces Hi _ IHs]; intro s; simpl.
    + now rewrite app_nil_r.
    + rewrite Hi, IHs. now rewrite app_assoc.
Qed.

Lemma flatten_leaves (spaces : list Mixed.space) :
  Mixed.flatten spaces = Mixed.leaves (Mixed.Composite spaces).
Proof.
  unfold Mixed.flatten. now rewrite recursiveflatten_leaves.
Qed.

Lemma dim_loop_sum (ts : list TPS.TensorProductSpace) (s0 : Z) :
  fold_left (fun s T => s + TPS.dim T) ts s0 = s0 + Mixed.sum (map TPS.dim ts).
Proof.
  revert s0; induction ts as [|T ts IH]; intro s0; simpl; [lia|].
  rewrite IH. lia.
Qed.

Lemma sum_app (l1 l2 : list Z) : Mixed.sum (l1 ++ l2) = Mixed.sum l1 + Mixed.sum l2.
Proof.
  induction l1 as [|x l1 IH]; simpl; [reflexivity | rewrite IH; lia].
Qed.

(** C8: [dim()] of a composite space, however nested, is the sum of
    [dim()] over its leaves listed depth first and left to right. *)
Theorem mixed_dim_sum_of_leaves (spaces : list Mixed.space) :
  Mixed.flatten spaces = Mixed.leaves (Mixed.Composite spaces)
  /\ Mixed.dim spaces
     = Mixed.sum (map TPS.dim (Mixed.leaves (Mixed.Composite spaces))).
Proof.
  split; [apply flatten_leaves|].
  unfold Mixed.dim. rewrite dim_loop_sum, flatten_leaves. lia.
Qed.

(** Hence [dim()] adds up over the members, composite members included. *)
Lemma mixed_dim_sum_of_members (spaces : list Mixed.space) :
  Mixed.dim spaces = Mixed.sum (map Mixed.space_dim spaces).
Proof.
  unfold Mixed.dim. rewrite dim_loop_sum, flatten_leaves. simpl.
  induction spaces as [|i spaces IH]; simpl; [reflexivity|].
  rewrite map_app, sum_app.
  replace (Mixed.sum (map TPS.dim (Mixed.leaves i))) with (Mixed.space_dim i); [lia|].
  destruct i as [T|members]; simpl.
  - lia.
  - unfold Mixed.dim. rewrite dim_loop_sum, flatten_leaves. reflexivity.
Qed.

(** ** Element types along the forward pipeline *)

Lemma dtype_eqb_eq (a b : TPS.dtype) : TPS.dtype_eqb a b = true <-> a = b.
Proof.
  destruct a, b; simpl; split; intro H; congruence.
Qed.

Lemma plan_group_stage (bs : list TPS.Basis) (shp : list Z) (g : list Z)
  (dt : TPS.dtype) (st : TPS.Stage) (shp' : list Z) (dt' : TPS.dtype) :
  TPS.plan_group bs shp g dt = Ok (st, shp', dt') ->
  TPS.stage_in st = dt /\ dt' = TPS.stage_out st
  /\ exists b, getitemZ bs (TPS.stage_base st) = Ok b
               /\ TPS.stage_out st = TPS.plan_dtype b dt.
Proof.
  unfold TPS.plan_group. intro H.
  inv_bind H. inv_bind H. inv_bind H.
  destruct ((x1 =? TPS.plan_extent x0 x1) && TPS.dtype_eqb dt (TPS.plan_dtype x0 dt))
    eqn:E.
  - injection H as <- _ <-. simpl.
    apply andb_true_iff in E. destruct E as (_ & E). apply dtype_eqb_eq in E.
    split; [reflexivity|]. split; [assumption|]. eauto.
  - inv_bind H. injection H as <- _ <-. simpl.
    split; [reflexivity|]. split; [reflexivity|]. eauto.
Qed.

Lemma last_dtype_app (dt : TPS.dtype) (l1 l2 : list TPS.Stage) :
  TPS.last_dtype dt (l1 ++ l2) = TPS.last_dtype (TPS.last_dtype dt l1) l2.
Proof.
  unfold TPS.last_dtype. apply fold_left_app.
Qed.

Lemma dtype_chain_app (bs : list TPS.Basis) (l1 l2 : list TPS.Stage) :
  forall dt,
    TPS.dtype_chain bs dt (l1 ++ l2) <->
    TPS.dtype_chain bs dt l1 /\ TPS.dtype_chain bs (TPS.last_dtype dt l1) l2.
Proof.
  induction l1 as [|st l1 IH]; intro dt; simpl.
  - tauto.
  - rewrite IH. unfold TPS.last_dtype at 2. simpl. tauto.
Qed.

(** The stages configured by lines 153-179 form a chain from the input dtype. *)
Lemma configure_chain (mpi : TPS.Mpi) (sizes : list Z) (bs : list TPS.Basis)
  (shp : list Z) (axs : list (list Z)) (dt : TPS.dtype) (p0 : TPS.Pencil)
  (s : TPS.build) :
  TPS.configure mpi sizes bs shp axs dt = Ok (p0, s) ->
  TPS.dtype_chain bs dt (TPS.b_xfftn s).
Proof.
  unfold TPS.configure. intro H.
  inv_bind H. inv_bind H. inv_bind H.
  destruct x1 as ((st, shp'), dt'). inv_bind H.
  injection H as _ <-.
  apply plan_group_stage in Hx1. destruct Hx1 as (Hin & -> & Hb).
  set (P := fun b : TPS.build =>
              TPS.dtype_chain bs dt (TPS.b_xfftn b)
              /\ TPS.b_dtype b = TPS.last_dtype dt (TPS.b_xfftn b)).
  assert (HP : P x1).
  { eapply (foldM_invariant P); [| |exact Hx2].
    - clear. intros a g a' (Hc & Hd) Hstep.
      unfold TPS.configure_step in Hstep.
      inv_bind Hstep. inv_bind Hstep.
      destruct x0 as ((st, shp'), dt'). injection Hstep as <-.
      apply plan_group_stage in Hx0. destruct Hx0 as (Hin & -> & Hb).
      unfold P; simpl. split.
      + apply dtype_chain_app. split; [assumption|].
        simpl. rewrite <- Hd. auto.
      + rewrite last_dtype_app. reflexivity.
    - unfold P; simpl. split; [auto|reflexivity]. }
  exact (proj1 HP).
Qed.

Lemma init_chain (mpi : TPS.Mpi) (comm : TPS.comm_arg) (bs : list TPS.Basis)
  (axs : Axes.axes_arg) (dt : option TPS.dtype) (slab cf : bool)
  (T : TPS.TensorProductSpace) :
  TPS.init mpi comm bs axs dt slab cf None = Ok T ->
  exists dt0, TPS.dtype_chain bs dt0 (TPS.xfftn T).
Proof.
  unfold TPS.init. intro H.
  repeat inv_bind H.
  match type of H with
  | context [let '(_, _) := ?p in _] => destruct p as (pencil0, s)
  end.
  injection H as <-. simpl.
  match goal with
  | Hc : TPS.configure _ _ _ _ _ _ = Ok _ |- _ =>
      apply configure_chain in Hc; eauto
  end.
Qed.

Lemma getitem_In {X : Type} (l : list X) (i : nat) (x : X) :
  getitem l i = Ok x -> In x l.
Proof.
  unfold getitem. destruct (nth_error l i) eqn:E; intro H; [|discriminate].
  injection H as <-. eapply nth_error_In; eassumption.
Qed.

Lemma getitemZ_In {X : Type} (l : list X) (i : Z) (x : X) :
  getitemZ l i = Ok x -> In x l.
Proof.
  unfold getitemZ. intro H.
  destruct ((0 <=? i) && (i <? Z.of_nat (length l))).
  - eapply getitem_In; eassumption.
  - destruct ((- Z.of_nat (length l) <=? i) && (i <? 0)); [|discriminate].
    eapply getitem_In; eassumption.
Qed.

(** ** Collapsing Fourier axes *)

Lemma last_item_app {X : Type} (l : list X) (x : X) : TPS.last_item (l ++ [x]) = Ok x.
Proof.
  unfold TPS.last_item, getitemZ, getitem.
  rewrite length_app. simpl length.
  replace (0 <=? -1) with false by reflexivity. simpl andb.
  replace ((- Z.of_nat (length l + 1) <=? -1) && (-1 <? 0)) with true.
  2:{ symmetry. apply andb_true_iff. split; [apply Z.leb_le; lia | reflexivity]. }
  replace (Z.to_nat (-1 + Z.of_nat (length l + 1))) with (length l) by lia.
  rewrite nth_error_app2 by lia. rewrite Nat.sub_diag. reflexivity.
Qed.

Lemma last_item_ok {X : Type} (l : list X) (x : X) :
  TPS.last_item l = Ok x -> l = removelast l ++ [x].
Proof.
  destruct l as [|y l] using rev_ind.
  - unfold TPS.last_item, getitemZ. simpl. discriminate.
  - rewrite last_item_app. intro H. injection H as <-.
    now rewrite removelast_last.
Qed.

Lemma collapse_fold_singletons (bs : list TPS.Basis) (sizes : list Z)
  (xs : list (list Z)) :
  Forall (fun g => length g = 1%nat) xs ->
  forall groups F0 groups' F',
    groups <> [] ->
    foldM (TPS.collapse_step bs sizes) (groups, F0) xs = Ok (groups', F') ->
    concat groups' = concat (rev xs) ++ concat groups
    /\ (length groups' <= length xs + length groups)%nat
    /\ groups' <> [].
Proof.
  induction 1 as [|x xs Hx _ IH]; intros groups F0 groups' F' Hne H; simpl in H.
  - injection H as <- <-. simpl. auto.
  - inv_bind H. destruct x0 as (groups1, F1).
    destruct x as [|a [|b x]]; try discriminate.
    unfold TPS.collapse_step in Hx0.
    change (TPS.last_item [a]) with (Ok (X := Z) a) in Hx0. cbn [bind] in Hx0.
    inv_bind Hx0.
    destruct groups as [|g0 rest]; [congruence|].
    assert (Hstep : concat groups1 = a :: concat (g0 :: rest)
                    /\ (length groups1 <= S (length (g0 :: rest)))%nat
                    /\ groups1 <> []).
    { destruct (F0 && x); injection Hx0 as <- _; simpl;
        repeat split; auto; discriminate. }
    destruct Hstep as (Hc & Hl & Hne1).
    destruct (IH _ _ _ _ Hne1 H) as (Hc' & Hl' & Hne').
    split; [|split; [simpl in *; lia | assumption]].
    rewrite Hc', Hc. simpl rev. rewrite concat_app. simpl.
    rewrite <- app_assoc. reflexivity.
Qed.

(** When every group is a single axis, collapsing keeps the axes and their
    order and does not add groups: it can only remove transfers. *)
Lemma collapse_singletons (bs : list TPS.Basis) (sizes : list Z)
  (axs groups : list (list Z)) :
  Forall (fun g => length g = 1%nat) axs ->
  TPS.collapse bs sizes axs = Ok groups ->
  concat groups = concat axs /\ (length groups <= length axs)%nat.
Proof.
  intros Hs H. unfold TPS.collapse in H.
  inv_bind H. inv_bind H. inv_bind H. inv_bind H.
  injection H as <-. destruct x2 as (groups', F'). simpl.
  apply last_item_ok in Hx.
  assert (Hs' : Forall (fun g => length g = 1%nat) (rev (removelast axs))).
  { apply Forall_rev. rewrite Hx in Hs. apply Forall_app in Hs. tauto. }
  destruct (collapse_fold_singletons bs sizes Hs' (groups := [x]) x1
              ltac:(discriminate) Hx2) as (Hc & Hl & _).
  rewrite rev_involutive in Hc. rewrite length_rev in Hl.
  assert (Hlen : length axs = (length (removelast axs) + 1)%nat).
  { rewrite Hx at 1. rewrite length_app. reflexivity. }
  split.
  - rewrite Hc. transitivity (concat (removelast axs ++ [x])).
    + now rewrite concat_app.
    + now rewrite <- Hx.
  - simpl in Hl. lia.
Qed.

(** C9 at a failing input: three Fourier bases on one process with the
    axes given as [((0, 1), 2)].  Without collapsing, the pipeline
    transforms axis 2 and then axes 0 and 1; with [collapse_fourier] the two
    groups are merged into [(1, 2)] and axis 0 is transformed by no stage. *)
Theorem collapse_drops_grouped_axis :
  exists Tu Tm,
    Examples.grouped3 false = Ok Tu
    /\ Examples.grouped3 true = Ok Tm
    /\ map TPS.stage_axes (TPS.xfftn Tu) = [[2]; [0; 1]]
    /\ map TPS.stage_axes (TPS.xfftn Tm) = [[1; 2]]
    /\ In 0 (concat (TPS.axes Tu))
    /\ ~ In 0 (concat (TPS.axes Tm)).
Proof.
  eexists. eexists.
  split; [vm_compute; reflexivity|].
  split; [vm_compute; reflexivity|].
  split; [reflexivity|]. split; [reflexivity|].
  split; [simpl; auto|].
  simpl. intros [H|[H|[]]]; discriminate.
Qed.

(** ** The boundary splicer *)

Section SplicerFacts.

Context {array slice : Type}.

Local Abbreviation snapshot := (Boundary.snapshot slice).
Local Abbreviation Orchestrator := (Boundary.Orchestrator array slice).
Local Abbreviation BoundaryValues := (Boundary.BoundaryValues array slice).

Lemma setitem_middle (pre : list snapshot) (old v : snapshot) (rest : list snapshot) :
  setitem (pre ++ old :: rest) (length pre) v = Ok (pre ++ v :: rest).
Proof.
  induction pre as [|h pre IH]; simpl; [reflexivity|].
  rewrite IH. reflexivity.
Qed.



Lemma store_slices_unbound (T : Orchestrator) (M : nat) (target : list snapshot) :
  M <> 0%nat -> Boundary.store_slices T M None target = Raise UnboundLocalError.
Proof.
  destruct M as [|M]; [congruence|]. reflexivity.
Qed.



Lemma getitemZ_seq (n : nat) (a : Z) :
  0 <= a < Z.of_nat n -> getitemZ (seq 0 n) a = Ok (Z.to_nat a).
Proof.
  intro Ha. unfold getitemZ, getitem. rewrite length_seq.
  replace ((0 <=? a) && (a <? Z.of_nat n)) with true.
  2:{ symmetry. apply andb_true_iff. split; [apply Z.leb_le | apply Z.ltb_lt]; lia. }
  rewrite nth_error_seq.
  replace (Z.to_nat a <? n)%nat with true; [reflexivity|].
  symmetry. apply Nat.ltb_lt. lia.
Qed.










End SplicerFacts.



Section DepthFacts.

Context {array slice : Type}.

Local Abbreviation snapshot := (Boundary.snapshot slice).
Local Abbreviation Orchestrator := (Boundary.Orchestrator array slice).
Local Abbreviation BoundaryValues := (Boundary.BoundaryValues array slice).

Lemma count_step_eval (T : Orchestrator) (this_base : Boundary.Base)
  (ax : option Z) (n : nat) (g : list Z) (a : Z) :
  TPS.last_item g = Ok a ->
  0 <= a < Z.of_nat (Boundary.T_nbases T) ->
  Boundary.count_step T this_base (ax, n) g
  = Ok (if Boundary.base_eq T a (Boundary.axis this_base) then (Some a, n)
        else match ax with None => (None, S n) | Some _ => (ax, n) end).
Proof.
  intros Ha Hr. unfold Boundary.count_step. rewrite Ha. cbn [bind].
  rewrite (getitemZ_seq _ Hr). cbn [bind].
  destruct (Boundary.base_eq T a (Boundary.axis this_base)); [reflexivity|].
  destruct ax; reflexivity.
Qed.

Lemma count_fold_misses (T : Orchestrator) (this_base : Boundary.Base)
  (groups : list (list Z)) :
  Forall (Boundary.ends_at T this_base false) groups ->
  forall n, foldM (Boundary.count_step T this_base) (None, n) groups
            = Ok (None, (n + length groups)%nat).
Proof.
  induction 1 as [|g groups (a & Ha & Hr & Hne) _ IH]; intro n; cbn [foldM length].
  - now rewrite Nat.add_0_r.
  - rewrite (@count_step_eval T this_base None n g a Ha Hr), Hne. cbn [bind].
    rewrite IH. do 2 f_equal. lia.
Qed.

Lemma count_fold_found (T : Orchestrator) (this_base : Boundary.Base)
  (groups : list (list Z)) :
  Forall (fun g => exists a, TPS.last_item g = Ok a
                             /\ 0 <= a < Z.of_nat (Boundary.T_nbases T)) groups ->
  forall z n, exists z',
    foldM (Boundary.count_step T this_base) (Some z, n) groups = Ok (Some z', n).
Proof.
  induction 1 as [|g groups (a & Ha & Hr) _ IH]; intros z n; cbn [foldM].
  - eauto.
  - rewrite (@count_step_eval T this_base (Some z) n g a Ha Hr).
    destruct (Boundary.base_eq T a (Boundary.axis this_base)); cbn [bind]; apply IH.
Qed.

(** The depth computed by lines 1149-1157 is the number of groups that
    follow, in [T.axes], the last group closed by the axis of [this_base]:
    the groups whose stages run first in the forward pipeline. *)
Lemma count_bases_after_groups (T : Orchestrator) (this_base : Boundary.Base)
  (before : list (list Z)) (g : list Z) (after : list (list Z)) :
  Boundary.T_axes T = before ++ g :: after ->
  Forall (fun g => exists a, TPS.last_item g = Ok a
                             /\ 0 <= a < Z.of_nat (Boundary.T_nbases T)) before ->
  Boundary.ends_at T this_base true g ->
  Forall (Boundary.ends_at T this_base false) after ->
  Boundary.count_bases_after T this_base = Ok (length after).
Proof.
  intros E Hbefore (a & Ha & Hr & Hhit) Hafter.
  unfold Boundary.count_bases_after. rewrite E, rev_app_distr. simpl rev.
  rewrite <- app_assoc. rewrite foldM_app.
  rewrite (@count_fold_misses T this_base (rev after)) by (apply Forall_rev; exact Hafter).
  cbn [bind]. simpl app. cbn [foldM].
  rewrite (@count_step_eval T this_base None _ g a Ha Hr), Hhit. cbn [bind].
  destruct (@count_fold_found T this_base (rev before)
              ltac:(apply Forall_rev; exact Hbefore) a (0 + length (rev after))%nat)
    as (z' & ->).
  simpl. now rewrite length_rev.
Qed.

Lemma stage_and_transfer_trace (T : Orchestrator) (i : nat) (x : array)
  (r : array * list Boundary.event) :
  Boundary.stage_and_transfer T i x = Ok r ->
  snd r = [Boundary.RunStage i; Boundary.RunTransfer i].
Proof.
  unfold Boundary.stage_and_transfer. intro H.
  inv_bind H. inv_bind H. inv_bind H. injection H as <-. reflexivity.
Qed.

(** For depth 0, 1 and 2 the intermediate array went through exactly
    [depth] stages, each followed by its transfer. *)
Lemma intermediate_runs_depth (T : Orchestrator) (depth : nat) (b : array)
  (r : option array) (tr : list Boundary.event) :
  (depth <= 2)%nat ->
  Boundary.intermediate T depth b = Ok (r, tr) ->
  (exists a, r = Some a) /\ tr = Boundary.stages_and_transfers depth.
Proof.
  intros Hd H.
  destruct depth as [|[|[|depth]]]; [| | |lia]; simpl in H.
  - injection H as <- <-. split; [eauto | reflexivity].
  - inv_bind H. injection H as <- <-.
    apply stage_and_transfer_trace in Hx. rewrite Hx. split; [eauto | reflexivity].
  - inv_bind H. inv_bind H. injection H as <- <-.
    apply stage_and_transfer_trace in Hx, Hx0. rewrite Hx, Hx0.
    split; [eauto | reflexivity].
Qed.

(** Beyond depth 2 no branch binds [b_hat]. *)
Lemma intermediate_unbound (T : Orchestrator) (depth : nat) (b : array) :
  (3 <= depth)%nat -> Boundary.intermediate T depth b = Ok (None, []).
Proof.
  intro Hd. destruct depth as [|[|[|depth]]]; try lia. reflexivity.
Qed.

Lemma nonhomogeneous_nonempty (l : list Boundary.bc_value) :
  Boundary.has_nonhomogeneous l = true -> length l <> 0%nat.
Proof.
  destruct l; simpl; [discriminate | congruence].
Qed.

(** With three or more groups to run first, the first read of [b_hat]
    raises. *)
Lemma deep_axis_unbound (st : BoundaryValues) (this_base : Boundary.Base)
  (T : Orchestrator) (depth : nat) (u : list unit) :
  Boundary.has_nonhomogeneous_bcs this_base = true ->
  Boundary.count_bases_after T this_base = Ok depth ->
  (3 <= depth)%nat ->
  Boundary.has_nonhomogeneous (Boundary.bc st) = true ->
  mapM (Boundary.check_slot (Boundary.T_nbases T) (Boundary.bc_time st))
       (Boundary.bc st) = Ok u ->
  Boundary.set_tensor_bcs st this_base (Boundary.Tensor T) = Raise UnboundLocalError.
Proof.
  intros Hflag Hcount Hd Hnh Hchk.
  unfold Boundary.set_tensor_bcs. rewrite Hflag, Hcount. cbn [bind].
  rewrite Hnh. cbn [negb].
  unfold Boundary.tensor_snapshots. rewrite Hchk. cbn [bind].
  rewrite (intermediate_unbound _ _ Hd). cbn [bind fst].
  rewrite store_slices_unbound by (apply nonhomogeneous_nonempty; exact Hnh).
  reflexivity.
Qed.

Lemma assign_loop (l : list Boundary.bc_value) :
  forall pre rest : list snapshot,
    length rest = length l ->
    Forall (fun v => Boundary.is_other v = false) l ->
    foldM Boundary.assign_step (pre ++ rest) (combine (seq (length pre) (length l)) l)
    = Ok (pre ++ map (@Boundary.Raw slice) l).
Proof.
  induction l as [|v l IH]; intros pre rest Hlen Hok.
  - destruct rest; [|discriminate]. reflexivity.
  - destruct rest as [|old rest]; [discriminate|].
    inversion Hok as [|? ? Hv Hl]; subst.
    simpl. unfold Boundary.assign_step at 1. simpl fst; simpl snd. rewrite Hv.
    rewrite setitem_middle. cbn [bind].
    change (pre ++ Boundary.Raw v :: rest) with (pre ++ [Boundary.Raw v] ++ rest).
    rewrite app_assoc.
    replace (S (length pre)) with (length (pre ++ [Boundary.Raw (slice := slice) v]))
      by (rewrite length_app; simpl; lia).
    rewrite IH by (simpl in Hlen; auto; lia).
    rewrite <- app_assoc. reflexivity.
Qed.



End DepthFacts.

(** C3 at a failing input: a Dirichlet basis on axis 0 of a space of four
    bases has three groups to run before its own.  No branch of lines
    1208-1233 binds [b_hat] for that depth and [set_tensor_bcs] raises
    [UnboundLocalError]; the loop that computes the final snapshot runs the
    same pipeline to its end. *)
Theorem depth_three_is_unbound :
  Examples.space4 = Ok Examples.T4
  /\ Boundary.count_bases_after (Examples.splicer_view Examples.T4) Examples.dirichlet0
     = Ok 3%nat
  /\ Boundary.set_tensor_bcs
       (Examples.fresh [Boundary.BcNumber 1; Boundary.BcNumber 0])
       Examples.dirichlet0 (Boundary.Tensor (Examples.splicer_view Examples.T4))
     = Raise UnboundLocalError
  /\ exists b_hat,
      Boundary.final (Examples.splicer_view Examples.T4) [2; 0]
      = Ok (b_hat, Boundary.stages_and_transfers 3 ++ [Boundary.RunStage 3]).
Proof.
  split; [vm_compute; reflexivity|].
  split; [vm_compute; reflexivity|].
  split; [vm_compute; reflexivity|].
  eexists. vm_compute. reflexivity.
Qed.


(** ** Forward and backward pipelines mirror each other *)

Section Mirror.

Context {array : Type}.

Lemma run_snoc (xs ts : list (array -> array)) (f t : array -> array) :
  forall c, length xs = S (length ts) ->
    Transform.run (xs ++ [f]) (ts ++ [t]) c
    = bind (Transform.run xs ts c) (fun v => Ok (f (t v))).
Proof.
  revert ts; induction xs as [|g xs IH]; intros ts c Hlen; [discriminate|].
  destruct ts as [|s ts].
  - destruct xs; [reflexivity | discriminate].
  - simpl in Hlen. destruct xs as [|h xs]; [discriminate|].
    change (Transform.run ((g :: h :: xs) ++ [f]) ((s :: ts) ++ [t]) c)
      with (Transform.run ((h :: xs) ++ [f]) (ts ++ [t]) (s (g c))).
    change (Transform.run (g :: h :: xs) (s :: ts) c)
      with (Transform.run (h :: xs) ts (s (g c))).
    apply IH. lia.
Qed.

(** With exact arithmetic, where every stage and every transfer undoes its
    own backward operation, the backward pipeline followed by the forward
    pipeline returns the coefficients it was given. *)
Lemma pipeline_round_trip_exact (transfer xfftn : list (Transform.ops array)) :
  length xfftn = S (length transfer) ->
  Forall (fun o => forall c, Transform.forward o (Transform.backward o c) = c) xfftn ->
  Forall (fun o => forall c, Transform.forward o (Transform.backward o c) = c) transfer ->
  forall c, exists u,
    Transform.run_backward xfftn transfer c = Ok u
    /\ Transform.run_forward xfftn transfer u = Ok c.
Proof.
  unfold Transform.run_backward, Transform.run_forward.
  revert xfftn; induction transfer as [|t ts IH]; intros xfftn Hlen Hx Ht c.
  - destruct xfftn as [|f [|g fs]]; try discriminate.
    inversion Hx as [|? ? Hf _]; subst.
    exists (Transform.backward f c). simpl. split; [reflexivity | now rewrite Hf].
  - destruct xfftn as [|f fs]; [discriminate|].
    inversion Hx as [|? ? Hf Hfs]; subst. inversion Ht as [|? ? Htt Hts]; subst.
    simpl in Hlen.
    destruct (IH fs ltac:(lia) Hfs Hts c) as (v & Hback & Hfwd).
    exists (Transform.backward f (Transform.backward t v)). split.
    + simpl rev. rewrite !map_app. simpl map.
      rewrite run_snoc by (rewrite !length_map, !length_rev; lia).
      rewrite Hback. reflexivity.
    + destruct fs as [|g fs]; [discriminate|].
      change (Transform.run (map Transform.forward (f :: g :: fs))
                (map Transform.forward (t :: ts))
                (Transform.backward f (Transform.backward t v)))
        with (Transform.run (map Transform.forward (g :: fs))
                (map Transform.forward ts)
                (Transform.forward t
                   (Transform.forward f
                      (Transform.backward f (Transform.backward t v))))).
      rewrite Hf, Htt. exact Hfwd.
Qed.

End Mirror.

(** * Further properties of the orchestrator *)

(** ** The [axes] argument *)

(** X1: a single integer for [axes] is accepted exactly when it lies in
    [-n, n); it then names the axis [a mod n], and otherwise the
    constructor stops with an [AssertionError]. *)
Theorem scalar_axis_wraps (n a : Z) :
  (- n <= a < n -> Axes.normalize_axes n (Axes.AxesScalar a) = Ok [[a mod n]])
  /\ (~ (- n <= a < n) ->
      Axes.normalize_axes n (Axes.AxesScalar a) = Raise AssertionError).
Proof.
  unfold Axes.normalize_axes, Axes.normalize_item, Axes.check_group.
  cbn [mapM Axes.wrap_item Axes.pymin Axes.pymax fold_left bind length].
  unfold Axes.wrap. split; intro H.
  - assert (E : (if a <? 0 then a + n else a) = a mod n).
    { destruct (Z.ltb_spec a 0).
      - apply Z.mod_unique with (q := -1); lia.
      - symmetry. apply Z.mod_small. lia. }
    rewrite E.
    assert (Hm : 0 <= a mod n < n) by (apply Z.mod_pos_bound; lia).
    replace (0 <=? a mod n) with true by (symmetry; apply Z.leb_le; lia).
    cbn [assert bind].
    replace (a mod n <? n) with true by (symmetry; apply Z.ltb_lt; lia).
    cbn [assert bind].
    replace ((0 <? Z.of_nat 1) && (Z.of_nat 1 <=? n)) with true.
    2:{ symmetry. apply andb_true_iff. split; [reflexivity | apply Z.leb_le; lia]. }
    cbn [assert bind].
    rewrite (proj2 (sorted_set_test [a mod n]))
      by (constructor; [intros [] | constructor]).
    reflexivity.
  - destruct (Z.ltb_spec a 0) as [Hneg|Hpos].
    + destruct (Z.leb_spec 0 (a + n)) as [Hle|Hlt]; [lia|].
      reflexivity.
    + replace (0 <=? a) with true by (symmetry; apply Z.leb_le; lia).
      cbn [assert bind].
      replace (a <? n) with false by (symmetry; apply Z.ltb_ge; lia).
      reflexivity.
Qed.

Lemma scalar_axis_wraps_witness :
  Axes.normalize_axes 3 (Axes.AxesScalar (- 1)) = Ok [[2]]
  /\ Axes.normalize_axes 3 (Axes.AxesScalar 3) = Raise AssertionError.
Proof.
  split.
  - apply (proj1 (scalar_axis_wraps 3 (- 1))). lia.
  - apply (proj2 (scalar_axis_wraps 3 3)). lia.
Defined.

Lemma singleton_valid (n : Z) (i : nat) :
  (i < Z.to_nat n)%nat -> Axes.group_valid n [Z.of_nat i].
Proof.
  intro Hi. split; [discriminate|]. split.
  - constructor; [lia | constructor].
  - constructor; [intros [] | constructor].
Qed.

(** X2: without an [axes] argument every axis is a group of its own, in
    input order. *)
Theorem default_axes (n : nat) :
  Axes.normalize_axes (Z.of_nat n) Axes.AxesNone
  = Ok (map (fun i => [Z.of_nat i]) (seq 0 n)).
Proof.
  change (Axes.normalize_axes (Z.of_nat n) Axes.AxesNone)
    with (Axes.normalize_axes (Z.of_nat n)
            (Axes.AxesSeq (map (fun i => Axes.AxInt (Z.of_nat i))
                               (seq 0 (Z.to_nat (Z.of_nat n)))))).
  apply normalize_axes_ok_iff. rewrite Nat2Z.id. rewrite map_map.
  split.
  - apply map_ext_in. intros i Hi. apply in_seq in Hi.
    simpl. unfold Axes.wrap.
    replace (Z.of_nat i <? 0) with false by (symmetry; apply Z.ltb_ge; lia).
    reflexivity.
  - apply Forall_forall. intros g Hg. apply in_map_iff in Hg.
    destruct Hg as (i & <- & Hi). apply in_seq in Hi.
    apply singleton_valid. lia.
Qed.

(** X3: groups that passed the validation pass it again unchanged, as when
    [get_refined] and [get_orthogonal] hand [self.axes] to the constructor. *)
Theorem normalized_axes_are_stable (n : Z) (axs : Axes.axes_arg) (gs : list (list Z)) :
  Axes.normalize_axes n axs = Ok gs ->
  Axes.normalize_axes n (Axes.AxesSeq (map Axes.AxGroup gs)) = Ok gs.
Proof.
  intro H.
  assert (Hv : Forall (Axes.group_valid n) gs).
  { destruct axs as [|a|l].
    - change (Axes.normalize_axes n Axes.AxesNone)
        with (Axes.normalize_axes n
                (Axes.AxesSeq (map (fun i => Axes.AxInt (Z.of_nat i))
                                   (seq 0 (Z.to_nat n))))) in H.
      apply normalize_axes_ok_iff in H. tauto.
    - change (Axes.normalize_axes n (Axes.AxesScalar a))
        with (Axes.normalize_axes n (Axes.AxesSeq [Axes.AxInt a])) in H.
      apply normalize_axes_ok_iff in H. tauto.
    - apply normalize_axes_ok_iff in H. tauto. }
  apply normalize_axes_ok_iff. split; [|assumption].
  rewrite map_map. simpl.
  clear H. induction Hv as [|g gs (_ & Hr & _) _ IH]; simpl; [reflexivity|].
  f_equal; [|assumption].
  symmetry. rewrite <- (map_id g) at 2. apply map_ext_in. intros a Ha.
  rewrite Forall_forall in Hr. specialize (Hr a Ha). unfold Axes.wrap.
  replace (a <? 0) with false by (symmetry; apply Z.ltb_ge; lia). reflexivity.
Qed.

Lemma normalized_axes_are_stable_witness :
  Axes.normalize_axes 3
    (Axes.AxesSeq (map Axes.AxGroup [[1; 2]; [0]])) = Ok [[1; 2]; [0]].
Proof.
  apply (@normalized_axes_are_stable 3
           (Axes.AxesSeq [Axes.AxGroup [-2; -1]; Axes.AxInt 0]) [[1; 2]; [0]]).
  vm_compute. reflexivity.
Defined.

(** ** Construction *)

Lemma fold_min_positive (t : list Z) (a : Z) :
  0 < fold_left Z.min t a <-> Forall (fun x => 0 < x) (a :: t).
Proof.
  revert a; induction t as [|b t IH]; intros a; simpl.
  - split; [intro; constructor; auto | intro H; inversion H; assumption].
  - rewrite IH. split; intro H.
    + inversion H as [|? ? Hm Ht]; subst.
      constructor; [lia|]. constructor; [lia | assumption].
    + inversion H as [|? ? Ha Hbt]; subst. inversion Hbt; subst.
      constructor; [lia | assumption].
Qed.

(** X4: the constructor never returns an orchestrator without bases or
    with a basis of non-positive physical extent: an empty list of bases is
    refused with an [AssertionError] whatever the other arguments are, and
    every orchestrator that is returned holds the bases it was given, at
    least one, all of positive extent. *)
Theorem init_needs_positive_shape (mpi : TPS.Mpi) (comm : TPS.comm_arg)
  (bs : list TPS.Basis) (axs : Axes.axes_arg) (dt : option TPS.dtype)
  (slab cf : bool) (bfp : option TPS.Pencil) :
  (bs = [] -> TPS.init mpi comm bs axs dt slab cf bfp = Raise AssertionError)
  /\ (forall T,
        TPS.init mpi comm bs axs dt slab cf bfp = Ok T ->
        bs <> []
        /\ Forall (fun b => 0 < TPS.base_shape b false) bs
        /\ TPS.bases T = bs).
Proof.
  split; [intros ->; reflexivity|].
  intros T H. unfold TPS.init in H.
  apply bind_ok in H. destruct H as (u & Hne & H).
  apply bind_ok in H. destruct H as (lo & Hlo & H).
  apply bind_ok in H. destruct H as (u' & Hpos & H).
  apply assert_ok in Hne. apply assert_ok, Z.ltb_lt in Hpos.
  destruct bs as [|b bs]; [discriminate|].
  split; [discriminate|]. split.
  - cbn [TPS.bases_shape map Axes.pymin] in Hlo. injection Hlo as <-.
    apply fold_min_positive in Hpos.
    change (Forall (fun x => 0 < x)
              (map (fun b0 => TPS.base_shape b0 false) (b :: bs))) in Hpos.
    rewrite Forall_map in Hpos. exact Hpos.
  - repeat inv_bind H. destruct bfp as [p|].
    + repeat inv_bind H.
      match type of H with
      | context [let '(_, _) := ?r in _] => destruct r as (pencil0, s)
      end.
      injection H as <-. reflexivity.
    + repeat inv_bind H.
      match type of H with
      | context [let '(_, _) := ?r in _] => destruct r as (pencil0, s)
      end.
      injection H as <-. reflexivity.
Qed.

Lemma init_needs_positive_shape_witness :
  match Examples.space2 with
  | Ok T => TPS.bases T = [Examples.chebyshev 8 true; Examples.r2c 8]
  | Raise _ => False
  end.
Proof.
  destruct Examples.space2 as [T|e] eqn:E; unfold Examples.space2 in E.
  - apply (proj2 (init_needs_positive_shape _ _ _ _ _ _ _ _) T E).
  - vm_compute in E. discriminate.
Defined.

Lemma init_steps (mpi : TPS.Mpi) (comm : TPS.comm_arg) (bs : list TPS.Basis)
  (axs : Axes.axes_arg) (dt : option TPS.dtype) (slab cf : bool)
  (T : TPS.TensorProductSpace) :
  TPS.init mpi comm bs axs dt slab cf None = Ok T ->
  exists gs g a blast sizes p0 s,
    Axes.normalize_axes (Z.of_nat (length bs)) axs = Ok gs
    /\ TPS.last_item gs = Ok g /\ TPS.last_item g = Ok a
    /\ getitemZ bs a = Ok blast
    /\ TPS.check_dtype blast
         (match dt with Some d => d | None => TPS.default_dtype blast end) = Ok tt
    /\ TPS.make_subcomm mpi comm (length bs) gs slab = Ok sizes
    /\ (if (if existsb TPS.padded bs then false else cf)
        then TPS.collapse bs sizes gs else Ok gs) = Ok (TPS.axes T)
    /\ TPS.configure mpi sizes bs (TPS.bases_shape bs false) (TPS.axes T)
         (match dt with Some d => d | None => TPS.default_dtype blast end)
       = Ok (p0, s)
    /\ TPS.bases T = bs /\ TPS.subcomm T = sizes
    /\ TPS.xfftn T = TPS.b_xfftn s /\ TPS.transfer T = TPS.b_transfer s
    /\ TPS.pencil T = (p0, TPS.b_pencilA s).
Proof.
  unfold TPS.init. intro H.
  inv_bind H. inv_bind H. inv_bind H. inv_bind H. inv_bind H. inv_bind H.
  inv_bind H. inv_bind H. inv_bind H. inv_bind H. inv_bind H.
  rewrite length_bases_shape in *.
  destruct x9 as (p0, s). injection H as <-. simpl.
  destruct x6. exists x2, x3, x4, x5, x7, p0, s.
  repeat (split; [assumption || reflexivity|]). reflexivity.
Qed.

(** X5: without [backward_from_pencil], a last basis of class [C2CBasis]
    with a real input dtype, or of class [R2CBasis] with a complex one,
    stops the construction with an [AssertionError]. *)
Theorem init_rejects_dtype_mismatch (mpi : TPS.Mpi) (comm : TPS.comm_arg)
  (bs : list TPS.Basis) (axs : Axes.axes_arg) (d : TPS.dtype) (slab cf : bool)
  (gs : list (list Z)) (g : list Z) (a : Z) (b : TPS.Basis) :
  Forall (fun b => 0 < TPS.base_shape b false) bs ->
  Axes.normalize_axes (Z.of_nat (length bs)) axs = Ok gs ->
  TPS.last_item gs = Ok g -> TPS.last_item g = Ok a -> getitemZ bs a = Ok b ->
  (TPS.cls b = TPS.C2CBasis /\ d = TPS.Real)
  \/ (TPS.cls b = TPS.R2CBasis /\ d = TPS.Complex) ->
  TPS.init mpi comm bs axs (Some d) slab cf None = Raise AssertionError.
Proof.
  intros Hpos Hn Hg Ha Hb Hmis. unfold TPS.init.
  pose proof (getitemZ_In _ _ Hb) as Hin.
  destruct bs as [|b0 bs]; [inversion Hin|]. clear Hin.
  cbn [TPS.bases_shape map length Nat.eqb negb assert bind Axes.pymin].
  assert (Hmin : 0 < fold_left Z.min (map (fun b1 => TPS.base_shape b1 false) bs)
                       (TPS.base_shape b0 false)).
  { apply fold_min_positive.
    change (Forall (fun x => 0 < x)
              (map (fun b1 => TPS.base_shape b1 false) (b0 :: bs))).
    rewrite Forall_map. exact Hpos. }
  apply Z.ltb_lt in Hmin. rewrite Hmin. cbn [assert bind].
  rewrite length_map.
  change (S (length bs)) with (length (b0 :: bs)).
  rewrite Hn. cbn [bind]. rewrite Hg. cbn [bind]. rewrite Ha. cbn [bind].
  rewrite Hb. cbn [bind]. unfold TPS.check_dtype.
  destruct Hmis as [(-> & ->)|(-> & ->)]; reflexivity.
Qed.

Lemma init_rejects_dtype_mismatch_witness :
  TPS.init Examples.serial (TPS.Comm 1) [Examples.c2c 8; Examples.r2c 8]
    Axes.AxesNone (Some TPS.Complex) false false None = Raise AssertionError.
Proof.
  apply (@init_rejects_dtype_mismatch Examples.serial (TPS.Comm 1)
           [Examples.c2c 8; Examples.r2c 8] Axes.AxesNone TPS.Complex false false
           [[0]; [1]] [1] 1 (Examples.r2c 8)).
  - repeat constructor.
  - reflexivity.
  - reflexivity.
  - reflexivity.
  - reflexivity.
  - right. split; reflexivity.
Defined.

Lemma plan_group_axes (bs : list TPS.Basis) (shp : list Z) (g : list Z)
  (dt : TPS.dtype) (st : TPS.Stage) (shp' : list Z) (dt' : TPS.dtype) :
  TPS.plan_group bs shp g dt = Ok (st, shp', dt') ->
  TPS.stage_axes st = g /\ TPS.last_item g = Ok (TPS.stage_base st).
Proof.
  unfold TPS.plan_group. intro H.
  inv_bind H. inv_bind H. inv_bind H.
  destruct ((x1 =? TPS.plan_extent x0 x1) && TPS.dtype_eqb dt (TPS.plan_dtype x0 dt)).
  - injection H as <- _ _. simpl. auto.
  - inv_bind H. injection H as <- _ _. simpl. auto.
Qed.

(** What the loop of lines 165-177 keeps true of the lists it grows. *)
Lemma configure_fold (mpi : TPS.Mpi) (bs : list TPS.Basis) (gs : list (list Z)) :
  forall (s s' : TPS.build) (pre : list TPS.Stage) (last : TPS.Stage),
    foldM (TPS.configure_step mpi bs) s gs = Ok s' ->
    TPS.b_xfftn s = pre ++ [last] ->
    length (TPS.b_transfer s) = length pre ->
    TPS.pencil_axis (TPS.b_pencilA s) = TPS.stage_base last ->
    TPS.b_dtype s = TPS.stage_out last ->
    TPS.transfer_links (TPS.b_xfftn s) (TPS.b_transfer s) ->
    map TPS.stage_axes (TPS.b_xfftn s') = map TPS.stage_axes (TPS.b_xfftn s) ++ gs
    /\ length (TPS.b_xfftn s') = S (length (TPS.b_transfer s'))
    /\ TPS.transfer_links (TPS.b_xfftn s') (TPS.b_transfer s').
Proof.
  induction gs as [|g gs IH]; intros s s' pre last H Hx Hlen Hax Hdt Hlinks.
  - injection H as <-. rewrite app_nil_r. split; [reflexivity|].
    split; [|assumption]. rewrite Hx, length_app, Hlen. simpl. lia.
  - simpl in H. inv_bind H.
    unfold TPS.configure_step in Hx0. inv_bind Hx0. inv_bind Hx0.
    destruct x1 as ((st, shp'), dt'). injection Hx0 as <-.
    pose proof (plan_group_stage _ _ _ _ Hx2) as (Hin & -> & _).
    pose proof (plan_group_axes _ _ _ _ Hx2) as (Hga & Hgb).
    rewrite Hx1 in Hgb. injection Hgb as ->.
    match type of H with
    | foldM _ ?s1 gs = Ok s' =>
        destruct (IH s1 s' (pre ++ [last]) st H) as (Hm & Hl & Hk)
    end.
    + simpl. now rewrite Hx.
    + simpl. rewrite !length_app, Hlen. reflexivity.
    + reflexivity.
    + reflexivity.
    + simpl. intros i t before after Ht Hb Ha.
      destruct (Nat.lt_ge_cases i (length (TPS.b_transfer s))) as [Hlt|Hge].
      * rewrite nth_error_app1 in Ht by assumption.
        assert (Hi : (S i < length (TPS.b_xfftn s))%nat)
          by (rewrite Hx, length_app; simpl; lia).
        rewrite nth_error_app1 in Hb by lia.
        rewrite nth_error_app1 in Ha by lia.
        eapply Hlinks; eassumption.
      * assert (Hi : i = length (TPS.b_transfer s)).
        { match type of Ht with
          | nth_error ?l _ = _ =>
              assert (Hlt : (i < length l)%nat)
                by (apply nth_error_Some; rewrite Ht; discriminate)
          end.
          rewrite length_app in Hlt. simpl in Hlt. lia. }
        subst i. rewrite nth_error_app2, Nat.sub_diag in Ht by lia.
        injection Ht as <-. simpl.
        rewrite Hx in Hb, Ha. rewrite <- app_assoc in Hb, Ha. rewrite Hlen in Hb, Ha.
        rewrite nth_error_app2, Nat.sub_diag in Hb by lia. injection Hb as <-.
        rewrite nth_error_app2 in Ha by lia.
        replace (S (length pre) - length pre)%nat with 1%nat in Ha by lia.
        injection Ha as <-. auto.
    + simpl in Hm. rewrite map_app in Hm. simpl in Hm. rewrite Hga in Hm.
      rewrite <- app_assoc in Hm. split; [exact Hm | auto].
Qed.

Lemma configure_structure (mpi : TPS.Mpi) (sizes : list Z) (bs : list TPS.Basis)
  (shp : list Z) (axs : list (list Z)) (dt : TPS.dtype) (p0 : TPS.Pencil)
  (s : TPS.build) :
  TPS.configure mpi sizes bs shp axs dt = Ok (p0, s) ->
  map TPS.stage_axes (TPS.b_xfftn s) = rev axs
  /\ length (TPS.b_xfftn s) = S (length (TPS.b_transfer s))
  /\ TPS.transfer_links (TPS.b_xfftn s) (TPS.b_transfer s).
Proof.
  unfold TPS.configure. intro H.
  inv_bind H. inv_bind H. inv_bind H.
  destruct x1 as ((st, shp'), dt'). inv_bind H. injection H as _ <-.
  pose proof (plan_group_stage _ _ _ _ Hx1) as (Hin & -> & _).
  pose proof (plan_group_axes _ _ _ _ Hx1) as (Hga & Hgb).
  rewrite Hx0 in Hgb. injection Hgb as ->.
  destruct (@configure_fold mpi bs _ _ _ [] st Hx2) as (Hm & Hl & Hk);
    try reflexivity.
  - intros i t before after Ht. destruct i; discriminate.
  - split; [|auto]. rewrite Hm. simpl. rewrite Hga.
    apply last_item_ok in Hx. rewrite Hx at 2.
    rewrite rev_app_distr. reflexivity.
Qed.

(** X6: the forward pipeline has one stage per group of [axes], in reverse
    order (the last group is transformed first), each stage planned by the
    basis of the last axis of its group, and one transfer fewer than
    stages. *)
Theorem pipeline_mirrors_axes (mpi : TPS.Mpi) (comm : TPS.comm_arg)
  (bs : list TPS.Basis) (axs : Axes.axes_arg) (dt : option TPS.dtype)
  (slab cf : bool) (T : TPS.TensorProductSpace) :
  TPS.init mpi comm bs axs dt slab cf None = Ok T ->
  map TPS.stage_axes (TPS.xfftn T) = rev (TPS.axes T)
  /\ Forall (fun st => TPS.last_item (TPS.stage_axes st) = Ok (TPS.stage_base st))
            (TPS.xfftn T)
  /\ length (TPS.xfftn T) = length (TPS.axes T)
  /\ length (TPS.xfftn T) = S (length (TPS.transfer T)).
Proof.
  intro H. destruct (init_steps _ _ _ _ _ _ _ H)
    as (gs & g & a & blast & sizes & p0 & s & _ & _ & _ & _ & _ & _ & _
        & Hc & _ & _ & -> & -> & _).
  pose proof (configure_structure _ _ _ _ _ _ Hc) as (Hm & Hl & _).
  split; [assumption|]. split; [|split; [|assumption]].
  - clear Hm Hl. revert Hc. unfold TPS.configure. intro Hc.
    inv_bind Hc. inv_bind Hc. inv_bind Hc.
    destruct x1 as ((st, shp'), dt'). inv_bind Hc. injection Hc as _ <-.
    eapply (foldM_invariant
              (fun b => Forall (fun st => TPS.last_item (TPS.stage_axes st)
                                          = Ok (TPS.stage_base st)) (TPS.b_xfftn b)));
      [| |exact Hx2].
    + intros b0 g0 b1 Hb0 Hstep. unfold TPS.configure_step in Hstep.
      inv_bind Hstep. inv_bind Hstep.
      match goal with
      | Hp : TPS.plan_group _ _ _ _ = Ok ?r |- _ =>
          destruct r as ((st1, shp1), dt1);
          pose proof (plan_group_axes _ _ _ _ Hp) as (Hga1 & Hgb1)
      end.
      injection Hstep as <-. simpl.
      apply Forall_app. split; [assumption|]. constructor; [|constructor].
      rewrite Hga1. exact Hgb1.
    + simpl. constructor; [|constructor].
      pose proof (plan_group_axes _ _ _ _ Hx1) as (-> & Hb). exact Hb.
  - rewrite <- (length_map TPS.stage_axes), Hm. apply length_rev.
Qed.

Lemma pipeline_mirrors_axes_witness :
  map TPS.stage_axes (TPS.xfftn Examples.T2) = rev (TPS.axes Examples.T2)
  /\ Forall (fun st => TPS.last_item (TPS.stage_axes st) = Ok (TPS.stage_base st))
            (TPS.xfftn Examples.T2)
  /\ length (TPS.xfftn Examples.T2) = length (TPS.axes Examples.T2)
  /\ length (TPS.xfftn Examples.T2) = S (length (TPS.transfer Examples.T2)).
Proof.
  apply (@pipeline_mirrors_axes Examples.serial (TPS.Comm 1)
           [Examples.chebyshev 8 true; Examples.r2c 8]
           Axes.AxesNone None false false Examples.T2).
  vm_compute. reflexivity.
Defined.

(** X7: every transfer of a constructed orchestrator moves data of the type
    the stage before it wrote, starts from a pencil aligned with the axis of
    that stage and ends in a pencil of the same global shape aligned with
    the axis of the next stage. *)
Theorem transfers_link_stages (mpi : TPS.Mpi) (comm : TPS.comm_arg)
  (bs : list TPS.Basis) (axs : Axes.axes_arg) (dt : option TPS.dtype)
  (slab cf : bool) (T : TPS.TensorProductSpace) :
  TPS.init mpi comm bs axs dt slab cf None = Ok T ->
  TPS.transfer_links (TPS.xfftn T) (TPS.transfer T).
Proof.
  intro H. destruct (init_steps _ _ _ _ _ _ _ H)
    as (gs & g & a & blast & sizes & p0 & s & _ & _ & _ & _ & _ & _ & _
        & Hc & _ & _ & -> & -> & _).
  apply (configure_structure _ _ _ _ _ _ Hc).
Qed.

Lemma transfers_link_stages_witness :
  TPS.transfer_links (TPS.xfftn Examples.T2) (TPS.transfer Examples.T2).
Proof.
  apply (@transfers_link_stages Examples.serial (TPS.Comm 1)
           [Examples.chebyshev 8 true; Examples.r2c 8]
           Axes.AxesNone None false false Examples.T2).
  vm_compute. reflexivity.
Defined.

(** ** Collapsing and the process grid *)

Lemma normalize_axes_valid (n : Z) (axs : Axes.axes_arg) (gs : list (list Z)) :
  Axes.normalize_axes n axs = Ok gs -> Forall (Axes.group_valid n) gs.
Proof.
  intro H. destruct axs as [|a|l].
  - change (Axes.normalize_axes n Axes.AxesNone)
      with (Axes.normalize_axes n
              (Axes.AxesSeq (map (fun i => Axes.AxInt (Z.of_nat i))
                                 (seq 0 (Z.to_nat n))))) in H.
    apply normalize_axes_ok_iff in H. tauto.
  - change (Axes.normalize_axes n (Axes.AxesScalar a))
      with (Axes.normalize_axes n (Axes.AxesSeq [Axes.AxInt a])) in H.
    apply normalize_axes_ok_iff in H. tauto.
  - apply normalize_axes_ok_iff in H. tauto.
Qed.

Lemma last_item_nonempty {X : Type} (l : list X) :
  l <> [] -> exists x, TPS.last_item l = Ok x /\ In x l.
Proof.
  intro Hne. destruct (exists_last Hne) as (l' & x & ->).
  exists x. split; [apply last_item_app|]. apply in_or_app. right. left. reflexivity.
Qed.

Lemma getitemZ_in_range {X : Type} (l : list X) (a : Z) :
  0 <= a < Z.of_nat (length l) -> exists x, getitemZ l a = Ok x.
Proof.
  intro Ha. unfold getitemZ, getitem.
  replace ((0 <=? a) && (a <? Z.of_nat (length l))) with true.
  2:{ symmetry. apply andb_true_iff. split; [apply Z.leb_le | apply Z.ltb_lt]; lia. }
  destruct (nth_error l (Z.to_nat a)) as [x|] eqn:E; [eauto|].
  apply nth_error_None in E. lia.
Qed.

(** A group that ends in an axis where [F] does not hold. *)
Lemma valid_group_not_fourier (bs : list TPS.Basis) (sizes : list Z) (g : list Z) :
  Forall (fun b => TPS.family b <> "fourier"%string) bs ->
  Axes.group_valid (Z.of_nat (length bs)) g ->
  exists a, TPS.last_item g = Ok a /\ TPS.F bs sizes a = Ok false.
Proof.
  intros Hnf (Hne & Hr & _).
  destruct (last_item_nonempty Hne) as (a & Ha & Hin).
  exists a. split; [assumption|].
  rewrite Forall_forall in Hr. specialize (Hr a Hin).
  destruct (@getitemZ_in_range _ bs a Hr) as (b & Hb).
  unfold TPS.F. rewrite Hb. cbn [bind].
  rewrite Forall_forall in Hnf. specialize (Hnf b (getitemZ_In _ _ Hb)).
  apply String.eqb_neq in Hnf. now rewrite Hnf.
Qed.

Lemma collapse_fold_unchanged (bs : list TPS.Basis) (sizes : list Z)
  (xs : list (list Z)) :
  Forall (fun g => exists a, TPS.last_item g = Ok a /\ TPS.F bs sizes a = Ok false) xs ->
  forall g0 groups F0,
    foldM (TPS.collapse_step bs sizes) (g0 :: groups, F0) xs
    = Ok (rev xs ++ g0 :: groups, match xs with [] => F0 | _ => false end).
Proof.
  induction 1 as [|x xs (a & Ha & HF) _ IH]; intros g0 groups F0.
  - reflexivity.
  - cbn [foldM]. unfold TPS.collapse_step at 1. rewrite Ha. cbn [bind].
    rewrite HF. cbn [bind]. rewrite andb_false_r.
    cbn [bind]. rewrite IH. simpl rev. rewrite <- app_assoc. simpl.
    destruct xs; reflexivity.
Qed.

Lemma collapse_unchanged (bs : list TPS.Basis) (sizes : list Z) (axs : list (list Z)) :
  axs <> [] ->
  Forall (fun g => exists a, TPS.last_item g = Ok a /\ TPS.F bs sizes a = Ok false) axs ->
  TPS.collapse bs sizes axs = Ok axs.
Proof.
  intros Hne Hall. destruct (exists_last Hne) as (front & g & ->).
  apply Forall_app in Hall. destruct Hall as (Hfront & Hg).
  inversion Hg as [|? ? (a & Ha & HF) _]; subst.
  unfold TPS.collapse. rewrite last_item_app. cbn [bind].
  rewrite Ha. cbn [bind]. rewrite HF. cbn [bind].
  rewrite removelast_last.
  rewrite (@collapse_fold_unchanged bs sizes (rev front))
    by (apply Forall_rev; exact Hfront).
  cbn [bind fst]. now rewrite rev_involutive.
Qed.

(** X8: on a space without a basis of the Fourier family
    [collapse_fourier] changes nothing: the constructor returns the same
    orchestrator, or stops with the same exception, with and without it. *)
Theorem collapse_needs_fourier (mpi : TPS.Mpi) (comm : TPS.comm_arg)
  (bs : list TPS.Basis) (axs : Axes.axes_arg) (dt : option TPS.dtype) (slab : bool)
  (bfp : option TPS.Pencil) :
  Forall (fun b => TPS.family b <> "fourier"%string) bs ->
  TPS.init mpi comm bs axs dt slab true bfp = TPS.init mpi comm bs axs dt slab false bfp.
Proof.
  intro Hnf. unfold TPS.init.
  destruct (assert (negb (Nat.eqb (length (TPS.bases_shape bs false)) 0)))
    as [u|e]; cbn [bind]; [|reflexivity].
  destruct (Axes.pymin (TPS.bases_shape bs false)) as [lo|e];
    cbn [bind]; [|reflexivity].
  destruct (assert (0 <? lo)) as [u'|e]; cbn [bind]; [|reflexivity].
  rewrite length_bases_shape.
  destruct (Axes.normalize_axes (Z.of_nat (length bs)) axs) as [gs|e] eqn:Hn;
    cbn [bind]; [|reflexivity].
  destruct (TPS.last_item gs) as [g|e] eqn:Hg; cbn [bind]; [|reflexivity].
  destruct (TPS.last_item g) as [a|e] eqn:Ha; cbn [bind]; [|reflexivity].
  destruct (getitemZ bs a) as [blast|e] eqn:Hb; cbn [bind]; [|reflexivity].
  destruct (TPS.check_dtype blast _); cbn [bind]; [|reflexivity].
  destruct (TPS.make_subcomm mpi comm (length bs) gs slab) as [sizes|e];
    cbn [bind]; [|reflexivity].
  destruct (existsb TPS.padded bs); [reflexivity|].
  rewrite collapse_unchanged; [reflexivity| |].
  - intros ->. discriminate.
  - eapply Forall_impl; [|exact (normalize_axes_valid _ _ Hn)].
    intros g' Hv. apply valid_group_not_fourier; assumption.
Qed.

Lemma collapse_needs_fourier_witness :
  TPS.init Examples.serial (TPS.Comm 1)
    [Examples.chebyshev 8 false; Examples.chebyshev 8 false]
    Axes.AxesNone None false true None
  = TPS.init Examples.serial (TPS.Comm 1)
      [Examples.chebyshev 8 false; Examples.chebyshev 8 false]
      Axes.AxesNone None false false None.
Proof.
  apply collapse_needs_fourier. repeat constructor; discriminate.
Defined.

Lemma collapse_fold_merges (bs : list TPS.Basis) (sizes : list Z)
  (xs : list (list Z)) :
  Forall (fun g => exists a, g = [a] /\ TPS.F bs sizes a = Ok true) xs ->
  forall g0 groups,
    foldM (TPS.collapse_step bs sizes) (g0 :: groups, true) xs
    = Ok ((concat (rev xs) ++ g0) :: groups, true).
Proof.
  induction 1 as [|x xs (a & -> & HF) _ IH]; intros g0 groups.
  - reflexivity.
  - cbn [foldM]. unfold TPS.collapse_step at 1.
    change (TPS.last_item [a]) with (Ok (X := Z) a). cbn [bind].
    rewrite HF. cbn [bind andb]. rewrite IH.
    simpl rev. rewrite concat_app. simpl. rewrite <- app_assoc. reflexivity.
Qed.

(** X9: when every basis is of the Fourier family, no axis is distributed
    and every group is a single axis, collapsing merges all the groups
    into one, which holds the axes in their order: the pipeline then has
    one stage and no transfer. *)
Theorem collapse_merges_all_fourier (bs : list TPS.Basis) (sizes : list Z)
  (axs : list (list Z)) :
  Forall (fun b => TPS.family b = "fourier"%string) bs ->
  length sizes = length bs ->
  Forall (fun s => s = 1) sizes ->
  axs <> [] ->
  Forall (fun g => exists a, g = [a] /\ 0 <= a < Z.of_nat (length bs)) axs ->
  TPS.collapse bs sizes axs = Ok [concat axs].
Proof.
  intros Hf Hlen Hone Hne Hall.
  assert (HF : Forall (fun g => exists a, g = [a] /\ TPS.F bs sizes a = Ok true) axs).
  { eapply Forall_impl; [|exact Hall]. intros g (a & -> & Hr).
    exists a. split; [reflexivity|].
    destruct (@getitemZ_in_range _ bs a Hr) as (b & Hb).
    assert (Hr' : 0 <= a < Z.of_nat (length sizes)) by (rewrite Hlen; exact Hr).
    destruct (@getitemZ_in_range _ sizes a Hr') as (s & Hs).
    unfold TPS.F. rewrite Hb. cbn [bind].
    rewrite Forall_forall in Hf. rewrite (Hf b (getitemZ_In _ _ Hb)). simpl.
    rewrite Hs. cbn [bind].
    rewrite Forall_forall in Hone. rewrite (Hone s (getitemZ_In _ _ Hs)).
    reflexivity. }
  destruct (exists_last Hne) as (front & g & ->).
  apply Forall_app in HF. destruct HF as (Hfront & Hg).
  inversion Hg as [|? ? (a & -> & HFa) _]; subst.
  unfold TPS.collapse. rewrite last_item_app. cbn [bind].
  change (TPS.last_item [a]) with (Ok (X := Z) a). cbn [bind].
  rewrite HFa. cbn [bind]. rewrite removelast_last.
  rewrite (@collapse_fold_merges bs sizes (rev front))
    by (apply Forall_rev; exact Hfront).
  cbn [bind fst]. rewrite rev_involutive, concat_app. simpl.
  reflexivity.
Qed.

Lemma collapse_merges_all_fourier_witness :
  TPS.collapse [Examples.c2c 8; Examples.c2c 8; Examples.r2c 8] [1; 1; 1]
    [[0]; [1]; [2]] = Ok [[0; 1; 2]].
Proof.
  apply (@collapse_merges_all_fourier
           [Examples.c2c 8; Examples.c2c 8; Examples.r2c 8] [1; 1; 1]
           [[0]; [1]; [2]]).
  - repeat constructor.
  - reflexivity.
  - repeat constructor.
  - discriminate.
  - constructor; [exists 0; split; [reflexivity | simpl; lia]|].
    constructor; [exists 1; split; [reflexivity | simpl; lia]|].
    constructor; [exists 2; split; [reflexivity | simpl; lia]|].
    constructor.
Defined.

(** X10: a process grid handed in as a [Subcomm] is used as it is, and
    only if [slab] is off, it has one entry per basis and its extent along
    the first axis to be transformed is 1; anything else is an
    [AssertionError]. *)
Theorem subcomm_argument_checked (mpi : TPS.Mpi) (sizes : list Z) (n : nat)
  (axs : list (list Z)) (slab : bool) (g : list Z) (a : Z) :
  TPS.last_item axs = Ok g -> TPS.last_item g = Ok a ->
  0 <= a < Z.of_nat n ->
  (slab = false /\ length sizes = n /\ getitemZ sizes a = Ok 1 ->
   TPS.make_subcomm mpi (TPS.Subcomm sizes) n axs slab = Ok sizes)
  /\ (~ (slab = false /\ length sizes = n /\ getitemZ sizes a = Ok 1) ->
      TPS.make_subcomm mpi (TPS.Subcomm sizes) n axs slab = Raise AssertionError).
Proof.
  intros Hg Ha Hr. unfold TPS.make_subcomm. rewrite Hg. cbn [bind].
  rewrite Ha. cbn [bind]. split.
  - intros (-> & Hlen & Hs). cbn [negb assert bind].
    rewrite Hlen, Nat.eqb_refl. cbn [assert bind]. rewrite Hs. reflexivity.
  - intro Hnot. destruct slab; [reflexivity|]. cbn [negb assert bind].
    destruct (Nat.eqb_spec (length sizes) n) as [Hlen|Hlen]; [|reflexivity].
    cbn [assert bind].
    assert (Hr' : 0 <= a < Z.of_nat (length sizes)) by (rewrite Hlen; exact Hr).
    destruct (@getitemZ_in_range _ sizes a Hr') as (s & Hs). rewrite Hs. cbn [bind].
    destruct (Z.eqb_spec s 1) as [->|Hne]; [|reflexivity].
    exfalso. apply Hnot. auto.
Qed.

Lemma subcomm_argument_checked_witness :
  TPS.make_subcomm Examples.serial (TPS.Subcomm [2; 1]) 2 [[0]; [1]] false = Ok [2; 1]
  /\ TPS.make_subcomm Examples.serial (TPS.Subcomm [1; 2]) 2 [[0]; [1]] false
     = Raise AssertionError.
Proof.
  split.
  - apply (proj1 (@subcomm_argument_checked Examples.serial [2; 1] 2 [[0]; [1]]
                    false [1] 1 eq_refl eq_refl ltac:(simpl; lia))).
    repeat split; reflexivity.
  - apply (proj2 (@subcomm_argument_checked Examples.serial [1; 2] 2 [[0]; [1]]
                    false [1] 1 eq_refl eq_refl ltac:(simpl; lia))).
    intros (_ & _ & H). discriminate.
Defined.

(** ** Queries on an orchestrator *)

Lemma nonperiodic_from_bounds (bs : list TPS.Basis) (start : nat) :
  Forall (fun k => (start <= k)%nat) (TPS.nonperiodic_from start bs)
  /\ StronglySorted lt (TPS.nonperiodic_from start bs).
Proof.
  revert start; induction bs as [|b t IH]; intro start; simpl.
  - split; constructor.
  - destruct (IH (S start)) as (Hb & Hs).
    assert (Hb' : Forall (fun k => (start <= k)%nat) (TPS.nonperiodic_from (S start) t)).
    { eapply Forall_impl; [|exact Hb]. simpl; intros; lia. }
    destruct (String.eqb (TPS.family b) "fourier").
    + split; assumption.
    + split.
      * constructor; [lia | exact Hb'].
      * constructor; [exact Hs|].
        eapply Forall_impl; [|exact Hb]. simpl; intros; lia.
Qed.

(** X11: [get_nonperiodic_axes] returns, in increasing order and without
    repetition, exactly the axes whose basis is not of the Fourier family. *)
Theorem nonperiodic_axes_listed (T : TPS.TensorProductSpace) :
  StronglySorted lt (TPS.get_nonperiodic_axes T)
  /\ forall k,
      In k (TPS.get_nonperiodic_axes T) <->
      exists b, nth_error (TPS.bases T) k = Some b
                /\ TPS.family b <> "fourier"%string.
Proof.
  split.
  - apply nonperiodic_from_bounds.
  - intro k. unfold TPS.get_nonperiodic_axes. rewrite nonperiodic_from_spec.
    rewrite Nat.sub_0_r. split; intros (b & H); exists b; intuition lia.
Qed.

(** X12: [eval] uses the low-memory cython code only for method 0, the
    fast cython code only for method 1, both only when at most one axis is
    non-periodic, and the python code in every other case. *)
Theorem eval_dispatch (T : TPS.TensorProductSpace) (method : Z) :
  let few := (length (TPS.get_nonperiodic_axes T) <= 1)%nat in
  (TPS.eval T method = TPS.EvalLmCython <-> method = 0 /\ few)
  /\ (TPS.eval T method = TPS.EvalCython <-> method = 1 /\ few)
  /\ (TPS.eval T method = TPS.EvalPython <-> (method <> 0 /\ method <> 1) \/ ~ few).
Proof.
  intro few. unfold TPS.eval, few.
  destruct (Nat.ltb_spec 1 (length (TPS.get_nonperiodic_axes T))) as [Hmany|Hfew].
  - cbn. split; [|split].
    + split; [discriminate | intros (_ & H); lia].
    + split; [discriminate | intros (_ & H); lia].
    + split; [intros _; right; lia | reflexivity].
  - destruct (Z.eqb_spec method 0) as [->|H0]; [|destruct (Z.eqb_spec method 1) as [->|H1]].
    + split; [|split].
      * split; [intros _; split; [reflexivity | exact Hfew] | reflexivity].
      * split; [discriminate | intros (H & _); discriminate H].
      * split; [discriminate | intros [(H & _)|H]; [congruence | contradiction]].
    + split; [|split].
      * split; [discriminate | intros (H & _); discriminate H].
      * split; [intros _; split; [reflexivity | exact Hfew] | reflexivity].
      * split; [discriminate | intros [(_ & H)|H]; [congruence | contradiction]].
    + split; [|split].
      * split; [discriminate | intros (H & _); contradiction].
      * split; [discriminate | intros (H & _); contradiction].
      * split; [intros _; left; auto | reflexivity].
Qed.

Lemma compatible_bases_spec (hash_of : TPS.Basis -> Z) (bs0 bs1 : list TPS.Basis) :
  TPS.compatible_bases hash_of bs0 bs1 = true <->
  forall i b0 b1, nth_error bs0 i = Some b0 -> nth_error bs1 i = Some b1 ->
                  hash_of b0 = hash_of b1.
Proof.
  revert bs1; induction bs0 as [|b0 t0 IH]; intros bs1; simpl.
  - split; [|reflexivity]. intros _ i b0 b1 H. destruct i; discriminate.
  - destruct bs1 as [|b1 t1].
    + split; [|reflexivity]. intros _ i c0 c1 _ H. destruct i; discriminate.
    + destruct (Z.eqb_spec (hash_of b0) (hash_of b1)) as [E|E]; simpl.
      * rewrite IH. split; intro H.
        -- intros [|i] c0 c1 H0 H1; simpl in *; [congruence | eauto].
        -- intros i c0 c1 H0 H1. apply (H (S i)); assumption.
      * split; [discriminate|]. intro H. exfalso. apply E.
        apply (H 0%nat); reflexivity.
Qed.

(** X13: two spaces are compatible exactly when the bases they both have,
    axis by axis, hash alike; bases beyond the shorter space are not looked
    at, so the relation is reflexive and symmetric and a space is compatible
    with any space that extends its list of bases. *)
Theorem compatible_base_spec (hash_of : TPS.Basis -> Z) (T S : TPS.TensorProductSpace) :
  (TPS.compatible_base hash_of T S = true <->
   forall i b0 b1, nth_error (TPS.bases T) i = Some b0 ->
                   nth_error (TPS.bases S) i = Some b1 ->
                   hash_of b0 = hash_of b1)
  /\ TPS.compatible_base hash_of T T = true
  /\ TPS.compatible_base hash_of T S = TPS.compatible_base hash_of S T
  /\ (forall more, TPS.bases S = TPS.bases T ++ more ->
                   TPS.compatible_base hash_of T S = true).
Proof.
  unfold TPS.compatible_base. split; [apply compatible_bases_spec|].
  split; [|split].
  - apply compatible_bases_spec. intros i b0 b1 H0 H1. congruence.
  - destruct (TPS.compatible_bases hash_of (TPS.bases T) (TPS.bases S)) eqn:E.
    + symmetry. apply compatible_bases_spec. intros i b0 b1 H0 H1.
      symmetry. eapply (proj1 (compatible_bases_spec _ _ _) E); eassumption.
    + destruct (TPS.compatible_bases hash_of (TPS.bases S) (TPS.bases T)) eqn:E';
        [|reflexivity].
      exfalso.
      assert (Hc : TPS.compatible_bases hash_of (TPS.bases T) (TPS.bases S) = true).
      { apply compatible_bases_spec. intros i b0 b1 H0 H1.
        symmetry. eapply (proj1 (compatible_bases_spec _ _ _) E'); eassumption. }
      congruence.
  - intros more ->. apply compatible_bases_spec. intros i b0 b1 H0 H1.
    assert (Hi : (i < length (TPS.bases T))%nat)
      by (apply nth_error_Some; rewrite H0; discriminate).
    rewrite nth_error_app1 in H1 by assumption. congruence.
Qed.

(** X14: the coefficients of a real-to-complex axis of size [n] that are
    counted a second time as conjugates are those with global index from 1
    up to, but not including, [last_conj_index]: the mean mode and, for
    even [n], the Nyquist mode are counted once.  On a process that owns
    the whole half spectrum the two contributions add up to [n] modes. *)
Theorem conj_slice_spec (n start stop : Z) :
  1 <= n -> 0 <= start < stop -> stop <= TPS.half_size n ->
  let '(sl, st) := TPS.conj_slice n start stop in
  0 <= sl /\ 0 <= st <= stop - start
  /\ (forall j, 0 <= j < stop - start ->
                (sl <= j < st <-> 1 <= start + j < TPS.last_conj_index n))
  /\ (start = 0 -> stop = TPS.half_size n -> TPS.half_size n + (st - sl) = n).
Proof.
  intros Hn Hs Hstop. unfold TPS.conj_slice, TPS.last_conj_index, TPS.half_size in *.
  assert (Hdiv : n = 2 * (n / 2) + n mod 2) by (apply Z.div_mod; lia).
  assert (Hmod : 0 <= n mod 2 < 2) by (apply Z.mod_pos_bound; lia).
  destruct (Z.eqb_spec (n mod 2) 0) as [He|Ho];
    destruct (Z.eqb_spec start 0) as [->|Hs0];
    repeat split; try lia.
Qed.

Lemma conj_slice_spec_witness :
  let '(sl, st) := TPS.conj_slice 8 0 5 in
  0 <= sl /\ 0 <= st <= 5 - 0
  /\ (forall j, 0 <= j < 5 - 0 ->
                (sl <= j < st <-> 1 <= 0 + j < TPS.last_conj_index 8))
  /\ (0 = 0 -> 5 = TPS.half_size 8 -> TPS.half_size 8 + (st - sl) = 8).
Proof.
  apply (@conj_slice_spec 8 0 5); [lia | lia | vm_compute; discriminate].
Defined.

(** * Further properties of composite spaces *)

Lemma fold_append_map {A B : Type} (f : A -> B) (l : list A) (acc : list B) :
  fold_left (fun s x => s ++ [f x]) l acc = acc ++ map f l.
Proof.
  revert acc; induction l as [|x l IH]; intro acc; simpl.
  - now rewrite app_nil_r.
  - rewrite IH, <- app_assoc. reflexivity.
Qed.



(** X16: [dims()] lists [dim()] of the leaves in flattening order: it has one
    entry per component and its entries add up to [dim()]. *)
Theorem mixed_dims_spec (spaces : list Mixed.space) :
  Mixed.dims spaces = map TPS.dim (Mixed.leaves (Mixed.Composite spaces))
  /\ length (Mixed.dims spaces) = Mixed.num_components spaces
  /\ Mixed.sum (Mixed.dims spaces) = Mixed.dim spaces.
Proof.
  assert (E : Mixed.dims spaces = map TPS.dim (Mixed.leaves (Mixed.Composite spaces))).
  { unfold Mixed.dims. rewrite fold_append_map, flatten_leaves. reflexivity. }
  split; [exact E|]. rewrite E. split.
  - unfold Mixed.num_components. rewrite flatten_leaves. apply length_map.
  - unfold Mixed.dim. rewrite dim_loop_sum, flatten_leaves. lia.
Qed.

Lemma vector_transform_fold (ts : list Mixed.transform)
  (acc : list TPS.TensorProductSpace) :
  fold_left (fun acc t =>
               match t with
               | Mixed.VectorTransform l => acc ++ l
               | Mixed.OfSpace T => acc ++ [T]
               end) ts acc
  = acc ++ flat_map (fun t => match t with
                              | Mixed.VectorTransform l => l
                              | Mixed.OfSpace T => [T]
                              end) ts.
Proof.
  revert acc; induction ts as [|t ts IH]; intro acc; simpl.
  - now rewrite app_nil_r.
  - rewrite IH. destruct t; rewrite <- app_assoc; reflexivity.
Qed.

Lemma forward_of_leaves (l : Mixed.space) :
  match Mixed.forward_of l with
  | Mixed.VectorTransform ts => ts
  | Mixed.OfSpace T => [T]
  end = Mixed.leaves l.
Proof.
  induction l as [T|spaces IH] using space_nested_ind; [reflexivity|].
  simpl. unfold Mixed.VectorTransform_init. rewrite vector_transform_fold. simpl.
  induction IH as [|i spaces Hi _ IHs]; simpl; [reflexivity|].
  rewrite Hi, IHs. reflexivity.
Qed.

(** X17: the [VectorTransform] of a composite space, however nested, holds
    one transform per leaf, in flattening order: transform [i] is the one
    of leaf [i], the space that owns component [i]. *)
Theorem vector_transform_follows_flatten (spaces : list Mixed.space) :
  Mixed.forward_of (Mixed.Composite spaces)
  = Mixed.VectorTransform (Mixed.flatten spaces)
  /\ length (Mixed.flatten spaces) = Mixed.num_components spaces.
Proof.
  split; [|reflexivity].
  pose proof (forward_of_leaves (Mixed.Composite spaces)) as H.
  rewrite flatten_leaves. simpl in *. now rewrite H.
Qed.

Section CallFacts.

Context {row : Type}.

Lemma setitem_at {X : Type} (pre : list X) (old v : X) (rest : list X) :
  setitem (pre ++ old :: rest) (length pre) v = Ok (pre ++ v :: rest).
Proof.
  induction pre as [|h pre IH]; simpl; [reflexivity|]. rewrite IH. reflexivity.
Qed.

Lemma getitem_at {X : Type} (pre : list X) (x : X) (rest : list X) :
  getitem (pre ++ x :: rest) (length pre) = Ok x.
Proof.
  unfold getitem. rewrite nth_error_app2 by lia. now rewrite Nat.sub_diag.
Qed.

Lemma getitem_beyond {X : Type} (l : list X) (i : nat) :
  (length l <= i)%nat -> getitem l i = Raise IndexError.
Proof.
  intro H. unfold getitem. apply nth_error_None in H. now rewrite H.
Qed.

Lemma setitem_length {X : Type} (l l' : list X) (i : nat) (v : X) :
  setitem l i v = Ok l' -> length l' = length l.
Proof.
  revert l' i; induction l as [|h l IH]; intros l' i H; [discriminate|].
  destruct i; simpl in H.
  - injection H as <-. reflexivity.
  - inv_bind H. injection H as <-. simpl. f_equal. eapply IH; eassumption.
Qed.

Lemma setitem_in_range {X : Type} (l : list X) (v : X) :
  forall i, (i < length l)%nat -> exists l', setitem l i v = Ok l'.
Proof.
  induction l as [|h l IH]; intros i Hi; [simpl in Hi; lia|].
  destruct i; simpl; [eauto|].
  destruct (IH i ltac:(simpl in Hi; lia)) as (l' & ->). simpl. eauto.
Qed.

Lemma call_from_ok (ts : list (row -> row -> row)) :
  forall (inpre xs restin pre ys restout : list row),
    length inpre = length pre -> length xs = length ts -> length ys = length ts ->
    Mixed.call_from (length pre) ts (inpre ++ xs ++ restin) (pre ++ ys ++ restout)
    = Ok (pre ++ map (fun p => fst p (fst (snd p)) (snd (snd p)))
                     (combine ts (combine xs ys)) ++ restout).
Proof.
  induction ts as [|t ts IH]; intros inpre xs restin pre ys restout Hp Hx Hy.
  - destruct xs; [|discriminate]. destruct ys; [|discriminate]. reflexivity.
  - destruct xs as [|x xs]; [discriminate|]. destruct ys as [|y ys]; [discriminate|].
    cbn [Mixed.call_from].
    change (inpre ++ (x :: xs) ++ restin) with (inpre ++ x :: (xs ++ restin)).
    change (pre ++ (y :: ys) ++ restout) with (pre ++ y :: (ys ++ restout)).
    assert (E : getitem (inpre ++ x :: xs ++ restin) (length pre) = Ok x)
      by (rewrite <- Hp; apply getitem_at).
    rewrite E. cbn [bind]. rewrite getitem_at. cbn [bind].
    rewrite setitem_at. cbn [bind].
    replace (inpre ++ x :: xs ++ restin) with ((inpre ++ [x]) ++ xs ++ restin)
      by (rewrite <- app_assoc; reflexivity).
    replace (pre ++ t x y :: ys ++ restout) with ((pre ++ [t x y]) ++ ys ++ restout)
      by (rewrite <- app_assoc; reflexivity).
    replace (S (length pre)) with (length (pre ++ [t x y]))
      by (rewrite length_app; simpl; lia).
    rewrite IH; [|rewrite !length_app; simpl; lia|simpl in Hx; lia|simpl in Hy; lia].
    simpl. rewrite <- !app_assoc. reflexivity.
Qed.

Lemma call_from_short (ts : list (row -> row -> row)) :
  forall (i : nat) (input output : list row),
    (length input < i + length ts)%nat \/ (length output < i + length ts)%nat ->
    ts <> [] ->
    Mixed.call_from i ts input output = Raise IndexError.
Proof.
  induction ts as [|t ts IH]; intros i input output H Hne; [congruence|].
  cbn [Mixed.call_from].
  destruct (Nat.le_gt_cases (length input) i) as [Hin|Hin].
  { now rewrite getitem_beyond. }
  destruct (getitem input i) as [x|e] eqn:Ex.
  2:{ unfold getitem in Ex. destruct (nth_error input i); [discriminate|].
      injection Ex as <-. reflexivity. }
  cbn [bind].
  destruct (Nat.le_gt_cases (length output) i) as [Hout|Hout].
  { now rewrite getitem_beyond. }
  destruct (getitem output i) as [y|e] eqn:Ey.
  2:{ unfold getitem in Ey. destruct (nth_error output i); [discriminate|].
      injection Ey as <-. reflexivity. }
  cbn [bind].
  destruct (@setitem_in_range _ output (t x y) i Hout) as (out' & Es).
  rewrite Es. cbn [bind]. apply IH.
  - rewrite (setitem_length _ _ _ Es). simpl in H. lia.
  - intros ->. simpl in H. lia.
Qed.

(** X18: called on an input and an output array of at least as many rows as
    there are transforms, a [VectorTransform] writes into row [i] of the
    output what transform [i] makes of row [i] of the input, and leaves the
    further rows of the output as they are; with fewer rows in either array
    it raises [IndexError]. *)
Theorem vector_transform_call (ts : list (row -> row -> row))
  (input_array output_array : list row) :
  let n := length ts in
  ((n <= length input_array)%nat /\ (n <= length output_array)%nat ->
   Mixed.call ts input_array output_array
   = Ok (map (fun p => fst p (fst (snd p)) (snd (snd p)))
             (combine ts (combine (firstn n input_array) (firstn n output_array)))
         ++ skipn n output_array))
  /\ (~ ((n <= length input_array)%nat /\ (n <= length output_array)%nat) ->
      Mixed.call ts input_array output_array = Raise IndexError).
Proof.
  intro n. unfold Mixed.call. split.
  - intros (Hi & Ho).
    rewrite <- (firstn_skipn n input_array) at 1.
    rewrite <- (firstn_skipn n output_array) at 1.
    apply (call_from_ok ts [] (firstn n input_array) (skipn n input_array)
             [] (firstn n output_array) (skipn n output_array)).
    + reflexivity.
    + apply firstn_length_le. exact Hi.
    + apply firstn_length_le. exact Ho.
  - intro H. apply call_from_short; [fold n; lia|].
    intros ->. apply H. simpl in n. unfold n. simpl. lia.
Qed.

End CallFacts.

Lemma vector_transform_call_witness :
  Mixed.call [fun x y => x + y; fun x _ => 2 * x] [1; 2; 3] [10; 20; 30]
  = Ok [11; 4; 30]
  /\ Mixed.call [fun x y => x + y; fun x _ => 2 * x] [1] [10; 20; 30]
     = Raise IndexError.
Proof.
  split.
  - apply (proj1 (@vector_transform_call Z [fun x y => x + y; fun x _ => 2 * x]
                    [1; 2; 3] [10; 20; 30])).
    simpl. lia.
  - apply (proj2 (@vector_transform_call Z [fun x y => x + y; fun x _ => 2 * x]
                    [1] [10; 20; 30])).
    simpl. lia.
Defined.

Lemma leaves_repeat (T : TPS.TensorProductSpace) (n : nat) :
  Mixed.flatten (repeat (Mixed.Leaf T) n) = repeat T n.
Proof.
  rewrite flatten_leaves. simpl.
  induction n as [|n IH]; simpl; [reflexivity | now rewrite IH].
Qed.

Lemma sum_repeat (x : Z) (n : nat) : Mixed.sum (repeat x n) = Z.of_nat n * x.
Proof.
  induction n as [|n IH]; [reflexivity|].
  cbn [repeat Mixed.sum fold_right]. fold (Mixed.sum (repeat x n)). rewrite IH. lia.
Qed.

(** X19: the vector space made from one orchestrator of [n] bases has [n]
    members, all that orchestrator: it has [n] components, [n] times its
    degrees of freedom, and the shape of the orchestrator behind a leading
    [n]. *)
Theorem vector_space_of_orchestrator (T : TPS.TensorProductSpace)
  (forward_output : bool) :
  TPS.bases T <> [] ->
  let n := length (TPS.bases T) in
  Mixed.vector_init (Mixed.FromSpace (Mixed.Leaf T)) = Ok (repeat (Mixed.Leaf T) n)
  /\ Mixed.vector_num_components (repeat (Mixed.Leaf T) n) = Ok n
  /\ Mixed.dim (repeat (Mixed.Leaf T) n) = Z.of_nat n * TPS.dim T
  /\ Mixed.vector_shape (repeat (Mixed.Leaf T) n) forward_output
     = Ok (Z.of_nat n :: TPS.shape T forward_output).
Proof.
  intros Hne n. split; [reflexivity|].
  assert (Hn : n <> 0%nat) by (unfold n; destruct (TPS.bases T); [congruence | discriminate]).
  assert (Hrep : repeat T n = T :: repeat T (pred n))
    by (destruct n; [congruence | reflexivity]).
  assert (Hd : Mixed.dimensions (repeat (Mixed.Leaf T) n) = Ok n).
  { unfold Mixed.dimensions. rewrite leaves_repeat, Hrep. reflexivity. }
  assert (Hc : Mixed.vector_num_components (repeat (Mixed.Leaf T) n) = Ok n).
  { unfold Mixed.vector_num_components. rewrite Hd. cbn [bind].
    rewrite repeat_length, Nat.eqb_refl. reflexivity. }
  split; [exact Hc|]. split.
  - rewrite mixed_dim_sum_of_members, map_repeat. simpl. apply sum_repeat.
  - unfold Mixed.vector_shape. rewrite leaves_repeat, Hc, Hrep. reflexivity.
Qed.

Lemma vector_space_of_orchestrator_witness :
  Mixed.vector_init (Mixed.FromSpace (Mixed.Leaf Examples.stokes_space))
  = Ok (repeat (Mixed.Leaf Examples.stokes_space) 2)
  /\ Mixed.vector_num_components (repeat (Mixed.Leaf Examples.stokes_space) 2) = Ok 2%nat
  /\ Mixed.dim (repeat (Mixed.Leaf Examples.stokes_space) 2)
     = 2 * TPS.dim Examples.stokes_space
  /\ Mixed.vector_shape (repeat (Mixed.Leaf Examples.stokes_space) 2) false
     = Ok (2 :: TPS.shape Examples.stokes_space false).
Proof.
  apply (@vector_space_of_orchestrator Examples.stokes_space false).
  discriminate.
Defined.

(** X20: a [VectorTensorProductSpace] given a list whose length is not the
    number of bases of its first leaf cannot tell its number of components:
    [num_components] raises [AssertionError]; on a list without leaves it
    raises [IndexError]. *)
Theorem vector_list_must_match (spaces : list Mixed.space) :
  match Mixed.flatten spaces with
  | [] => Mixed.vector_num_components spaces = Raise IndexError
  | T0 :: _ =>
      (length spaces = length (TPS.bases T0) ->
       Mixed.vector_num_components spaces = Ok (length spaces))
      /\ (length spaces <> length (TPS.bases T0) ->
          Mixed.vector_num_components spaces = Raise AssertionError)
  end.
Proof.
  unfold Mixed.vector_num_components, Mixed.dimensions.
  destruct (Mixed.flatten spaces) as [|T0 rest]; [reflexivity|].
  cbn [getitem nth_error bind]. split; intro H.
  - rewrite H, Nat.eqb_refl. reflexivity.
  - apply Nat.eqb_neq in H. rewrite H. reflexivity.
Qed.

(** * Further properties of the boundary splicer *)

Section SplicerMore.

Context {array slice : Type}.

Local Abbreviation snapshot := (Boundary.snapshot slice).
Local Abbreviation Orchestrator := (Boundary.Orchestrator array slice).
Local Abbreviation BoundaryValues := (Boundary.BoundaryValues array slice).

Lemma all_zero_iff (a : list Z) :
  forallb (fun x => x =? 0) a = false <-> Exists (fun x => x <> 0) a.
Proof.
  induction a as [|x a IH]; simpl.
  - split; [discriminate | intro H; inversion H].
  - destruct (Z.eqb_spec x 0) as [->|Hx]; simpl.
    + rewrite IH. split; intro H; [now apply Exists_cons_tl|].
      inversion H; subst; [congruence | assumption].
    + split; [intros _; now apply Exists_cons_hd | reflexivity].
Qed.

(** X21: [has_nonhomogeneous_bcs] answers [True] exactly when some slot is
    a number other than zero (of Python or of sympy), an array with a
    non-zero entry, or a sympy expression that is not a number; slots of
    any other type are passed over. *)
Theorem has_nonhomogeneous_spec (l : list Boundary.bc_value) :
  Boundary.has_nonhomogeneous l = true <-> Exists Boundary.nonhomogeneous_slot l.
Proof.
  induction l as [|v l IH]; simpl.
  - split; [discriminate | intro H; inversion H].
  - destruct v as [z|a|e|]; simpl.
    + destruct (Z.eqb_spec z 0) as [->|Hz]; simpl.
      * rewrite IH. split; intro H; [now apply Exists_cons_tl|].
        inversion H; subst; [simpl in *; congruence | assumption].
      * split; [intros _; now apply Exists_cons_hd | reflexivity].
    + destruct (forallb (fun x => x =? 0) a) eqn:Ea; simpl.
      * rewrite IH. split; intro H; [now apply Exists_cons_tl|].
        inversion H as [? ? Hv|]; subst; [|assumption].
        simpl in Hv. apply all_zero_iff in Hv. congruence.
      * split; [|reflexivity]. intros _. apply Exists_cons_hd.
        simpl. now apply all_zero_iff.
    + destruct e as [z|name|e1 e2|e1 e2];
        try (split; [|reflexivity]; intros _; now apply Exists_cons_hd).
      destruct (Z.eqb_spec z 0) as [->|Hz]; simpl.
      * rewrite IH. split; intro H; [now apply Exists_cons_tl|].
        inversion H; subst; [simpl in *; congruence | assumption].
      * split; [intros _; now apply Exists_cons_hd | reflexivity].
    + rewrite IH. split; intro H; [now apply Exists_cons_tl|].
      inversion H as [? ? Hv|]; subst; [destruct Hv | assumption].
Qed.

Lemma assign_loop_other (l : list Boundary.bc_value) :
  forall (pre rest : list snapshot),
    length rest = length l ->
    Exists (fun v => Boundary.is_other v = true) l ->
    foldM Boundary.assign_step (pre ++ rest) (combine (seq (length pre) (length l)) l)
    = Raise NotImplementedError.
Proof.
  induction l as [|v l IH]; intros pre rest Hlen Hex; [inversion Hex|].
  destruct rest as [|old rest]; [discriminate|].
  cbn [length seq combine foldM]. unfold Boundary.assign_step at 1. cbn [fst snd].
  destruct (Boundary.is_other v) eqn:Ev; [reflexivity|].
  rewrite setitem_at. cbn [bind].
  inversion Hex as [? ? Hv|? ? Hl]; subst; [congruence|].
  replace (pre ++ Boundary.Raw v :: rest) with ((pre ++ [Boundary.Raw v]) ++ rest)
    by (rewrite <- app_assoc; reflexivity).
  replace (S (length pre)) with (length (pre ++ [Boundary.Raw (slice := slice) v]))
    by (rewrite length_app; simpl; lia).
  apply IH; [simpl in Hlen; lia | assumption].
Qed.

(** X22: [BoundaryValues(T, bc)] is built exactly for 2 or 4 slots that are
    numbers, arrays or expressions, and both snapshots then start as the
    slots themselves; another number of slots is an [AssertionError], a
    slot of another type a [NotImplementedError]. *)
Theorem boundary_init_spec (T : Boundary.Base) (l : list Boundary.bc_value) :
  let fits := length l = 2%nat \/ length l = 4%nat in
  let known := Forall (fun v => Boundary.is_other v = false) l in
  (fits /\ known ->
   exists st : BoundaryValues,
     Boundary.init T l = Ok st
     /\ Boundary.bc st = l
     /\ Boundary.bcs st = map (@Boundary.Raw slice) l
     /\ Boundary.bcs_final st = map (@Boundary.Raw slice) l
     /\ Boundary.tensorproductspace st = None)
  /\ (~ fits -> Boundary.init (array := array) (slice := slice) T l
                = Raise AssertionError)
  /\ (fits /\ ~ known -> Boundary.init (array := array) (slice := slice) T l
                         = Raise NotImplementedError).
Proof.
  intros fits known. unfold Boundary.init, Boundary.update_bcs.
  cbn [Boundary.bcs Boundary.bcs_final Boundary.bc].
  assert (Hfits : Nat.eqb (length l) 2 || Nat.eqb (length l) 4 = true <-> fits).
  { unfold fits. rewrite orb_true_iff, !Nat.eqb_eq. tauto. }
  split; [|split].
  - intros (Hf & Hk). apply Hfits in Hf. rewrite Hf. cbn [assert bind].
    unfold Boundary.enumerate.
    pose proof (@assign_loop slice l [] (repeat Boundary.zero (length l))
                  (repeat_length _ _) Hk) as Hloop.
    cbn [app length] in Hloop. rewrite Hloop. cbn [bind].
    eexists. split; [reflexivity|]. simpl. auto.
  - intro Hn. destruct (Nat.eqb (length l) 2 || Nat.eqb (length l) 4) eqn:E;
      [exfalso; apply Hn, Hfits; reflexivity | reflexivity].
  - intros (Hf & Hk). apply Hfits in Hf. rewrite Hf. cbn [assert bind].
    unfold Boundary.enumerate.
    assert (Hex : Exists (fun v => Boundary.is_other v = true) l).
    { unfold known in Hk. clear - Hk. induction l as [|v l IH].
      - exfalso. apply Hk. constructor.
      - destruct (Boundary.is_other v) eqn:Ev; [now apply Exists_cons_hd|].
        apply Exists_cons_tl. apply IH. intro Hl. apply Hk. now constructor. }
    pose proof (@assign_loop_other l [] (repeat Boundary.zero (length l))
                  (repeat_length _ _) Hex) as Hloop.
    cbn [app length] in Hloop. rewrite Hloop. reflexivity.
Qed.

End SplicerMore.

Section SplicerRuns.

Context {array slice : Type}.

Local Abbreviation snapshot := (Boundary.snapshot slice).
Local Abbreviation Orchestrator := (Boundary.Orchestrator array slice).
Local Abbreviation BoundaryValues := (Boundary.BoundaryValues array slice).

Lemma time_loop_idle (time : Z) (l : list Boundary.bc_value) :
  existsb Boundary.is_time_dependent l = false ->
  forall (k : nat) (acc : Z * list snapshot * bool),
    foldM (Boundary.time_step time) acc (combine (seq k (length l)) l) = Ok acc.
Proof.
  induction l as [|v l IH]; intros H k acc; [reflexivity|].
  cbn [existsb] in H. apply orb_false_iff in H. destruct H as (Hv & Hl).
  cbn [length seq combine foldM]. unfold Boundary.time_step at 1. cbn [snd].
  destruct v as [z|a|e|]; cbn [bind]; try (apply IH; exact Hl).
  rewrite Hv. cbn [bind]. apply IH. exact Hl.
Qed.

(** X23: what leaves the snapshots alone.  [update_bcs] without new values
    and [update_bcs_time] on slots none of which contains the symbol [t]
    return the state as it was and run nothing, bound to an orchestrator or
    not; [set_tensor_bcs] for a one-dimensional basis, or for a basis that
    does not report non-homogeneous conditions, only records the basis, its
    axis and the space. *)
Theorem snapshots_left_alone (st : BoundaryValues) (time : Z)
  (this_base : Boundary.Base) (T : Boundary.space array slice) :
  Boundary.update_bcs st None = Ok st
  /\ (existsb Boundary.is_time_dependent (Boundary.bc st) = false ->
      Boundary.update_bcs_time st time = Ok (st, []))
  /\ (T = Boundary.OneD \/ Boundary.has_nonhomogeneous_bcs this_base = false ->
      exists st',
        Boundary.set_tensor_bcs st this_base T = Ok (st', [])
        /\ Boundary.bc st' = Boundary.bc st
        /\ Boundary.bcs st' = Boundary.bcs st
        /\ Boundary.bcs_final st' = Boundary.bcs_final st
        /\ Boundary.bc_time st' = Boundary.bc_time st
        /\ Boundary.base st' = this_base
        /\ Boundary.bv_axis st' = Boundary.axis this_base
        /\ Boundary.tensorproductspace st' = Some T).
Proof.
  split; [reflexivity|]. split.
  - intro H. unfold Boundary.update_bcs_time, Boundary.enumerate.
    rewrite (time_loop_idle time _ H). cbn [bind]. destruct st; reflexivity.
  - intros [->|Hflag].
    + eexists. split; [reflexivity|]. simpl. auto 10.
    + unfold Boundary.set_tensor_bcs. rewrite Hflag.
      destruct T; eexists; (split; [reflexivity|]); simpl; auto 10.
Qed.










End SplicerRuns.

Lemma snapshots_left_alone_witness :
  Boundary.update_bcs_time
    (Examples.bound Examples.T2 [Boundary.BcNumber 1; Boundary.BcNumber 0]) 3
  = Ok (Examples.bound Examples.T2 [Boundary.BcNumber 1; Boundary.BcNumber 0], []).
Proof.
  apply (proj1 (proj2 (@snapshots_left_alone (list Z) Z
                         (Examples.bound Examples.T2
                            [Boundary.BcNumber 1; Boundary.BcNumber 0]) 3
                         Examples.dirichlet0 Boundary.OneD))).
  reflexivity.
Defined.



(** X25: the depth that [set_tensor_bcs] computes.  When the groups of the
    orchestrator close on axes in range, the depth is the number of groups
    that follow the last group closed by the axis of the basis; when no
    group closes on that axis it is the number of all groups. *)
Theorem depth_counts_later_groups {array slice : Type}
  (T : Boundary.Orchestrator array slice) (this_base : Boundary.Base) :
  (forall before g after,
      Boundary.T_axes T = before ++ g :: after ->
      Forall (fun g => exists a, TPS.last_item g = Ok a
                                 /\ 0 <= a < Z.of_nat (Boundary.T_nbases T)) before ->
      Boundary.ends_at T this_base true g ->
      Forall (Boundary.ends_at T this_base false) after ->
      Boundary.count_bases_after T this_base = Ok (length after))
  /\ (Forall (Boundary.ends_at T this_base false) (Boundary.T_axes T) ->
      Boundary.count_bases_after T this_base = Ok (length (Boundary.T_axes T))).
Proof.
  split.
  - intros before g after E Hb Hg Ha.
    exact (@count_bases_after_groups array slice T this_base before g after E Hb Hg Ha).
  - intro H. unfold Boundary.count_bases_after.
    rewrite (@count_fold_misses array slice T this_base (rev (Boundary.T_axes T)))
      by (apply Forall_rev; exact H).
    cbn [bind snd]. now rewrite length_rev.
Qed.

Lemma depth_counts_later_groups_witness :
  Boundary.count_bases_after (Examples.splicer_view Examples.T4) Examples.dirichlet0
  = Ok 3%nat.
Proof.
  apply (proj1 (@depth_counts_later_groups (list Z) Z
                  (Examples.splicer_view Examples.T4) Examples.dirichlet0)
               [] [0] [[1]; [2]; [3]]).
  - reflexivity.
  - constructor.
  - exists 0. repeat split; try reflexivity; vm_compute; congruence.
  - repeat constructor;
      [exists 1 | exists 2 | exists 3];
      repeat split; try reflexivity; vm_compute; congruence.
Defined.

Section BoundaryDofs.

Context {array slice : Type}.

Local Abbreviation snapshot := (Boundary.snapshot slice).
Local Abbreviation BoundaryValues := (Boundary.BoundaryValues array slice).




End BoundaryDofs.


(** * The construction from a pencil *)

Lemma first_item_ok {X : Type} (l : list X) (x : X) :
  TPS.first_item l = Ok x -> l = x :: tl l.
Proof.
  unfold TPS.first_item, getitemZ, getitem. destruct l as [|y l]; [discriminate|].
  cbn [length]. replace ((0 <=? 0) && (0 <? Z.of_nat (S (length l)))) with true.
  - simpl. intro H. injection H as <-. reflexivity.
  - symmetry. apply andb_true_iff. split; [reflexivity | apply Z.ltb_lt; lia].
Qed.

Lemma plan_group_backwards_stage (bs : list TPS.Basis) (shp sub : list Z)
  (g : list Z) (dt : TPS.dtype) (st : TPS.Stage) (shp' : list Z) (dt' : TPS.dtype) :
  TPS.plan_group_backwards bs shp sub g dt = Ok (st, shp', dt') ->
  TPS.stage_axes st = g
  /\ TPS.last_item g = Ok (TPS.stage_base st)
  /\ exists b, getitemZ bs (TPS.stage_base st) = Ok b
               /\ (TPS.cls b = TPS.R2CBasis -> TPS.stage_in st = TPS.Real)
               /\ (TPS.cls b <> TPS.R2CBasis -> TPS.stage_in st = dt).
Proof.
  unfold TPS.plan_group_backwards. intro H.
  inv_bind H. inv_bind H. inv_bind H. inv_bind H.
  assert (Hst : st = {| TPS.stage_axes := g; TPS.stage_base := x;
                        TPS.stage_in := match TPS.cls x0 with
                                        | TPS.R2CBasis => TPS.Real
                                        | _ => dt
                                        end;
                        TPS.stage_out :=
                          TPS.plan_dtype x0 (match TPS.cls x0 with
                                             | TPS.R2CBasis => TPS.Real
                                             | _ => dt
                                             end) |}).
  { match type of H with
    | (if ?c then _ else _) = _ => destruct c
    end.
    - injection H as <- _ _. reflexivity.
    - inv_bind H. injection H as <- _ _. reflexivity. }
  subst st. cbn [TPS.stage_axes TPS.stage_base TPS.stage_in].
  split; [reflexivity|]. split; [assumption|].
  exists x0. split; [assumption|].
  destruct (TPS.cls x0); split; intro Hc; congruence.
Qed.

(** What the loop of lines 246-262 keeps true of the lists it grows. *)
Lemma configure_backwards_fold (mpi : TPS.Mpi) (bs : list TPS.Basis)
  (Q : TPS.Stage -> Prop) :
  (forall shp sub g dt st shp' dt',
      TPS.plan_group_backwards bs shp sub g dt = Ok (st, shp', dt') -> Q st) ->
  forall (gs : list (list Z)) (s s' : TPS.build),
    foldM (TPS.configure_backwards_step mpi bs) s gs = Ok s' ->
    Forall Q (TPS.b_xfftn s) ->
    map TPS.stage_axes (TPS.b_xfftn s') = map TPS.stage_axes (TPS.b_xfftn s) ++ gs
    /\ length (TPS.b_transfer s') = (length (TPS.b_transfer s) + length gs)%nat
    /\ Forall Q (TPS.b_xfftn s').
Proof.
  intros HQ gs; induction gs as [|g gs IH]; intros s s' H Hs.
  - injection H as <-. rewrite app_nil_r, Nat.add_0_r. auto.
  - simpl in H. inv_bind H.
    unfold TPS.configure_backwards_step in Hx. inv_bind Hx. inv_bind Hx.
    destruct x1 as ((st, shp'), dt'). injection Hx as <-.
    pose proof (plan_group_backwards_stage _ _ _ _ _ Hx1) as (Hga & _).
    pose proof (HQ _ _ _ _ _ _ _ Hx1) as Hst.
    match type of H with
    | foldM _ ?s1 gs = Ok s' => destruct (IH s1 s' H) as (Hm & Hl & Hq)
    end.
    + cbn [TPS.b_xfftn]. apply Forall_app. split; [assumption|].
      constructor; [assumption | constructor].
    + cbn [TPS.b_xfftn TPS.b_transfer] in Hm, Hl.
      rewrite map_app in Hm. cbn [map] in Hm. rewrite Hga in Hm.
      rewrite <- app_assoc in Hm. rewrite length_app in Hl. cbn [length] in *.
      split; [exact Hm|]. split; [lia | exact Hq].
Qed.

(** X27: built from a pencil ([backward_from_pencil]), the orchestrator
    keeps the validated [axes] as they are, [collapse_fourier] or not, and
    takes the process grid of the pencil; it plans one stage per group in
    the order of [axes], the first group first, each on the last axis of its
    group, with one transfer fewer than stages, and plans every [R2CBasis]
    on real data whatever dtype was asked for. *)
Theorem pipeline_from_pencil (mpi : TPS.Mpi) (comm : TPS.comm_arg)
  (bs : list TPS.Basis) (axs : Axes.axes_arg) (dt : option TPS.dtype)
  (slab cf : bool) (p : TPS.Pencil) (T : TPS.TensorProductSpace) :
  TPS.init mpi comm bs axs dt slab cf (Some p) = Ok T ->
  Axes.normalize_axes (Z.of_nat (length bs)) axs = Ok (TPS.axes T)
  /\ TPS.subcomm T = TPS.pencil_subcomm p
  /\ map TPS.stage_axes (TPS.xfftn T) = TPS.axes T
  /\ Forall (fun st => TPS.last_item (TPS.stage_axes st) = Ok (TPS.stage_base st))
            (TPS.xfftn T)
  /\ length (TPS.xfftn T) = S (length (TPS.transfer T))
  /\ Forall (fun st => exists b,
                getitemZ bs (TPS.stage_base st) = Ok b
                /\ (TPS.cls b = TPS.R2CBasis -> TPS.stage_in st = TPS.Real))
            (TPS.xfftn T).
Proof.
  unfold TPS.init. intro H.
  repeat inv_bind H.
  destruct x6 as (pencil0, s). injection H as <-.
  cbn [TPS.axes TPS.subcomm TPS.xfftn TPS.transfer].
  rewrite length_bases_shape in Hx2.
  split; [exact Hx2|]. split; [reflexivity|].
  unfold TPS.configure_backwards in Hx6.
  apply bind_ok in Hx6. destruct Hx6 as (group & Hgroup & Hx6).
  apply bind_ok in Hx6. destruct Hx6 as (r & Hplan & Hx6).
  destruct r as ((st, shp'), dt').
  apply bind_ok in Hx6. destruct Hx6 as (a0 & Ha0 & Hx6).
  apply bind_ok in Hx6. destruct Hx6 as (s1 & Hfold & Hx6).
  injection Hx6 as _ <-.
  pose proof (first_item_ok _ Hgroup) as Haxs.
  set (Q := fun st : TPS.Stage =>
              TPS.last_item (TPS.stage_axes st) = Ok (TPS.stage_base st)
              /\ exists b, getitemZ bs (TPS.stage_base st) = Ok b
                           /\ (TPS.cls b = TPS.R2CBasis ->
                               TPS.stage_in st = TPS.Real)).
  assert (HQ : forall shp sub g dt0 st0 shp0 dt1,
             TPS.plan_group_backwards bs shp sub g dt0 = Ok (st0, shp0, dt1) -> Q st0).
  { intros shp sub g dt0 st0 shp0 dt1 Hp.
    destruct (plan_group_backwards_stage _ _ _ _ _ Hp) as (Hga & Hgb & b & Hb & Hr & _).
    split; [rewrite Hga; exact Hgb | eauto]. }
  destruct (@configure_backwards_fold mpi bs Q HQ _ _ _ Hfold) as (Hm & Hl & Hq).
  { cbn [TPS.b_xfftn]. constructor; [eapply HQ; eassumption | constructor]. }
  cbn [TPS.b_xfftn TPS.b_transfer map length] in Hm, Hl.
  destruct (plan_group_backwards_stage _ _ _ _ _ Hplan) as (Hga & _).
  rewrite Hga in Hm.
  split; [rewrite Hm; symmetry; exact Haxs|].
  split; [eapply Forall_impl; [|exact Hq]; intros st0 (Hs0 & _); exact Hs0|].
  split.
  - rewrite <- (length_map TPS.stage_axes), Hm, Hl. cbn [length Nat.add]. reflexivity.
  - eapply Forall_impl; [|exact Hq]. intros st0 (_ & Hs0). exact Hs0.
Qed.

Lemma pipeline_from_pencil_witness :
  match Examples.space2_from_pencil with
  | Ok T =>
      map TPS.stage_axes (TPS.xfftn T) = TPS.axes T
      /\ length (TPS.xfftn T) = S (length (TPS.transfer T))
  | Raise _ => False
  end.
Proof.
  destruct Examples.space2_from_pencil as [T|e] eqn:E;
    unfold Examples.space2_from_pencil in E.
  - destruct (pipeline_from_pencil _ _ _ _ _ _ _ _ E) as (_ & _ & Hm & _ & Hl & _).
    split; assumption.
  - vm_compute in E. discriminate.
Defined.
